(** * Selective Repeat over the Kurose network emulator: sr.c

    A shallow embedding of the two variants of the protocol code found in
    the repository,

      - [Sr]   : src/sr.c       (slots addressed by [seq % SEQSPACE]),
      - [Ass2] : src/ass2/sr.c  (slots addressed by [seq % WINDOWSIZE]),

    followed by the properties of the sender window manager, the receiver
    reorder buffer and the checksum.

    Conventions of the embedding.
      - A C [int] is a [Z]; [+] and [++] on [int] are [int_add], which
        wraps around at 32 bits; [%] is C's truncating remainder [Z.rem].
      - [char payload[20]] is a [vec byte 20].
      - The [WINDOWSIZE]-sized static arrays are lists; reading or writing
        outside the array is undefined behaviour in C and is the fault
        [OutOfBounds] here: execution of the entry point stops there.
      - The calls into the emulator ([tolayer3], [tolayer5], [starttimer],
        [stoptimer]) are recorded, in order, in the event trace of the call.
        The trace of a call that faults holds the events emitted before
        the fault.
      - The [TRACE]-guarded [printf] diagnostics only write to stdout and
        are left out. *)

From Stdlib Require Import ZArith Lia Strings.Byte.
From stdpp Require Import base tactics option list list_numbers vector.

Local Open Scope Z_scope.

(** ** Machine integers *)

Definition INT_MIN : Z := - 2 ^ 31.
Definition INT_MAX : Z := 2 ^ 31 - 1.

Definition in_int (z : Z) : Prop := INT_MIN ≤ z ≤ INT_MAX.

(** Two's complement wrap-around of a mathematical integer to 32 bits. *)
Definition wrap (z : Z) : Z := (z + 2 ^ 31) mod 2 ^ 32 - 2 ^ 31.

Definition int_add (a b : Z) : Z := wrap (a + b).

(** [(unsigned char) c] *)
Definition uchar (c : byte) : Z := Z.of_N (Byte.to_N c).

(** [(int) c] for a plain [char] that the platform treats as signed. *)
Definition schar (c : byte) : Z :=
  if uchar c <? 128 then uchar c else uchar c - 256.

(** ** Protocol units (emulator.h: [struct msg], [struct pkt]) *)

Record msg : Type := Msg { data : vec byte 20 }.

Record pkt : Type := Pkt {
  seqnum : Z;
  acknum : Z;
  checksum : Z;
  payload : vec byte 20
}.

Definition set_checksum (c : Z) (p : pkt) : pkt :=
  {| seqnum := seqnum p; acknum := acknum p; checksum := c; payload := payload p |}.

Definition set_acknum (a : Z) (p : pkt) : pkt :=
  {| seqnum := seqnum p; acknum := a; checksum := checksum p; payload := payload p |}.

(** A static [struct pkt] before anything is stored in it. *)
Definition zero_payload : vec byte 20 := vreplicate 20 "000"%byte.
Definition zero_pkt : pkt := Pkt 0 0 0 zero_payload.

Global Instance pkt_inhabited : Inhabited pkt := populate zero_pkt.

Global Instance byte_eq_dec : EqDecision byte := Byte.byte_eq_dec.

Global Instance pkt_eq_dec : EqDecision pkt.
Proof. solve_decision. Defined.

(** ** The emulator side of the interface *)

Inductive entity : Type := A | B.

Global Instance entity_eq_dec : EqDecision entity.
Proof. solve_decision. Defined.

Inductive event : Type :=
  | tolayer3 (who : entity) (p : pkt)
  | tolayer5 (who : entity) (d : vec byte 20)
  | starttimer (who : entity) (increment : Z)
  | stoptimer (who : entity).

Global Instance event_eq_dec : EqDecision event.
Proof. solve_decision. Defined.

(** ** Results of C code: a value, or undefined behaviour *)

Inductive fault : Type := OutOfBounds | OutOfFuel.

Inductive res (T : Type) : Type :=
  | Ok (x : T)
  | Fault (f : fault).
Global Arguments Ok {T} x.
Global Arguments Fault {T} f.

(** [a[i]] as an rvalue. *)
Definition load {T} (a : list T) (i : Z) : res T :=
  if bool_decide (0 ≤ i) then
    match a !! Z.to_nat i with
    | Some x => Ok x
    | None => Fault OutOfBounds
    end
  else Fault OutOfBounds.

(** [a[i] = x]. *)
Definition store {T} (a : list T) (i : Z) (x : T) : res (list T) :=
  if bool_decide (0 ≤ i < Z.of_nat (length a)) then Ok (<[Z.to_nat i := x]> a)
  else Fault OutOfBounds.

(** ** State, trace and fault monad of an entry point *)

Section monad.
Context {St : Type}.

Definition M (T : Type) : Type := St → list event * res (T * St).

Definition ret {T} (x : T) : M T := λ s, ([], Ok (x, s)).

Definition bind {T U} (m : M T) (k : T → M U) : M U := λ s,
  match m s with
  | (t, Ok (x, s')) => let '(t', r) := k x s' in (t ++ t', r)
  | (t, Fault f) => (t, Fault f)
  end.

Definition get : M St := λ s, ([], Ok (s, s)).
Definition put (s : St) : M unit := λ _, ([], Ok (tt, s)).
Definition modify (f : St → St) : M unit := λ s, ([], Ok (tt, f s)).
Definition emit (e : event) : M unit := λ s, ([e], Ok (tt, s)).
Definition lift {T} (r : res T) : M T := λ s,
  match r with
  | Ok x => ([], Ok (x, s))
  | Fault f => ([], Fault f)
  end.

(** [for (i = ...; ...; i++) body(i)] over the values [ixs] of [i]. *)
Fixpoint for_each (ixs : list Z) (body : Z → M unit) : M unit :=
  match ixs with
  | [] => ret tt
  | i :: rest => bind (body i) (λ _, for_each rest body)
  end.

(** The events and the final state of a call, the returned value dropped. *)
Definition exec {T} (m : M T) (s : St) : list event * res St :=
  match m s with
  | (t, Ok (_, s')) => (t, Ok s')
  | (t, Fault f) => (t, Fault f)
  end.
End monad.
Global Arguments M : clear implicits.

Global Instance M_ret {St} : MRet (M St) := λ _ x, ret x.
Global Instance M_bind {St} : MBind (M St) := λ _ _ k m, bind m k.

(** [arr[i]] and [arr[i] = x] on a static array held in the field [arr]. *)
Definition rd {St T} (arr : St → list T) (i : Z) : M St T :=
  s ← get; lift (load (arr s) i).

Definition wr {St T} (arr : St → list T) (upd : list T → St → St)
    (i : Z) (x : T) : M St unit :=
  s ← get; a ← lift (store (arr s) i x); put (upd a s).

(** A sequence of entry-point calls made by the emulator, one after the
    other; a fault ends the run. *)
Fixpoint run {St C} (step : C → M St unit) (cs : list C) : M St unit :=
  match cs with
  | [] => ret tt
  | c :: cs' => step c;; run step cs'
  end.

(** ** Constants shared by both variants *)

(** [RTT] is [16.0] time units. *)
Definition RTT : Z := 16.
Definition WINDOWSIZE : Z := 6.
Definition SEQSPACE : Z := 7.
Definition NOTINUSE : Z := -1.

(** ** Static state of the two endpoints

    [window_full], [total_ACKs_received] and [packets_resent] are the
    emulator's statistics counters (declared in emulator.h); they are
    counted here without a bound. *)

Record sender : Type := Sender {
  A_window : list pkt;
  A_acked : list bool;
  A_timer_running : list bool;
  A_base : Z;
  A_nextseq : Z;
  window_full : Z;
  total_ACKs_received : Z;
  packets_resent : Z
}.

Record receiver : Type := Receiver {
  B_buffer : list pkt;
  B_received : list bool;
  B_base : Z
}.

Definition set_A_window (v : list pkt) (s : sender) : sender :=
  Sender v (A_acked s) (A_timer_running s) (A_base s) (A_nextseq s)
         (window_full s) (total_ACKs_received s) (packets_resent s).
Definition set_A_acked (v : list bool) (s : sender) : sender :=
  Sender (A_window s) v (A_timer_running s) (A_base s) (A_nextseq s)
         (window_full s) (total_ACKs_received s) (packets_resent s).
Definition set_A_timer_running (v : list bool) (s : sender) : sender :=
  Sender (A_window s) (A_acked s) v (A_base s) (A_nextseq s)
         (window_full s) (total_ACKs_received s) (packets_resent s).
Definition set_A_base (v : Z) (s : sender) : sender :=
  Sender (A_window s) (A_acked s) (A_timer_running s) v (A_nextseq s)
         (window_full s) (total_ACKs_received s) (packets_resent s).
Definition set_A_nextseq (v : Z) (s : sender) : sender :=
  Sender (A_window s) (A_acked s) (A_timer_running s) (A_base s) v
         (window_full s) (total_ACKs_received s) (packets_resent s).
Definition set_window_full (v : Z) (s : sender) : sender :=
  Sender (A_window s) (A_acked s) (A_timer_running s) (A_base s) (A_nextseq s)
         v (total_ACKs_received s) (packets_resent s).
Definition set_total_ACKs_received (v : Z) (s : sender) : sender :=
  Sender (A_window s) (A_acked s) (A_timer_running s) (A_base s) (A_nextseq s)
         (window_full s) v (packets_resent s).
Definition set_packets_resent (v : Z) (s : sender) : sender :=
  Sender (A_window s) (A_acked s) (A_timer_running s) (A_base s) (A_nextseq s)
         (window_full s) (total_ACKs_received s) v.

Definition set_B_buffer (v : list pkt) (s : receiver) : receiver :=
  Receiver v (B_received s) (B_base s).
Definition set_B_received (v : list bool) (s : receiver) : receiver :=
  Receiver (B_buffer s) v (B_base s).
Definition set_B_base (v : Z) (s : receiver) : receiver :=
  Receiver (B_buffer s) (B_received s) v.

(** The statics as the loader leaves them: all zero. *)
Definition sender_statics : sender :=
  Sender (replicate (Z.to_nat WINDOWSIZE) zero_pkt)
         (replicate (Z.to_nat WINDOWSIZE) false)
         (replicate (Z.to_nat WINDOWSIZE) false) 0 0 0 0 0.

Definition receiver_statics : receiver :=
  Receiver (replicate (Z.to_nat WINDOWSIZE) zero_pkt)
           (replicate (Z.to_nat WINDOWSIZE) false) 0.

(** The calls the emulator makes into the sender after [A_init]. *)
Inductive A_call : Type :=
  | Call_A_output (message : msg)
  | Call_A_input (packet : pkt)
  | Call_A_timerinterrupt.

(** ** src/sr.c *)

Module Sr.

(** [ComputeChecksum]: [sum = seqnum + acknum], then
    [sum += (unsigned char) payload[i]] for [i = 0 .. 19]. *)
Definition ComputeChecksum (p : pkt) : Z :=
  foldl (λ sum c, int_add sum (uchar c))
        (int_add (seqnum p) (acknum p))
        (vec_to_list (payload p)).

Definition IsCorrupted (p : pkt) : bool :=
  bool_decide (checksum p ≠ ComputeChecksum p).

Definition A_init : M sender unit :=
  modify (set_A_base 0);;
  modify (set_A_nextseq 0);;
  for_each (seqZ 0 WINDOWSIZE) (λ i,
    wr A_acked set_A_acked i false;;
    wr A_timer_running set_A_timer_running i false).

Definition A_output (message : msg) : M sender unit :=
  s ← get;
  if bool_decide (A_nextseq s < int_add (A_base s) WINDOWSIZE) then
    let seq := Z.rem (A_nextseq s) SEQSPACE in
    let p := Pkt seq NOTINUSE 0 (data message) in
    let p := set_checksum (ComputeChecksum p) p in
    wr A_window set_A_window seq p;;
    wr A_acked set_A_acked seq false;;
    emit (tolayer3 A p);;
    running ← rd A_timer_running seq;
    (if running : bool then ret tt
     else emit (starttimer A RTT);;
          wr A_timer_running set_A_timer_running seq true);;
    modify (λ s, set_A_nextseq (int_add (A_nextseq s) 1) s)
  else
    modify (λ s, set_window_full (window_full s + 1) s).

(** [while (A_acked[A_base % SEQSPACE]) { A_acked[...] = 0; A_base++; }] *)
Fixpoint A_slide (fuel : nat) : M sender unit :=
  match fuel with
  | O => lift (Fault OutOfFuel)
  | S fuel' =>
      s ← get;
      a ← rd A_acked (Z.rem (A_base s) SEQSPACE);
      if a : bool then
        wr A_acked set_A_acked (Z.rem (A_base s) SEQSPACE) false;;
        modify (λ s, set_A_base (int_add (A_base s) 1) s);;
        A_slide fuel'
      else ret tt
  end.

Definition A_input (packet : pkt) : M sender unit :=
  if IsCorrupted packet then ret tt
  else
    s ← get;
    let ack := acknum packet in
    match find (λ i, bool_decide (ack = Z.rem i SEQSPACE))
               (seqZ (A_base s) (A_nextseq s - A_base s)) with
    | Some _ =>
        let idx := ack in
        a ← rd A_acked idx;
        if a : bool then ret tt
        else
          wr A_acked set_A_acked idx true;;
          modify (λ s, set_total_ACKs_received (total_ACKs_received s + 1) s);;
          running ← rd A_timer_running idx;
          (if running : bool then
             emit (stoptimer A);;
             wr A_timer_running set_A_timer_running idx false
           else ret tt);;
          s ← get;
          A_slide (S (length (A_acked s)))
    | None => ret tt
    end.

Definition A_timerinterrupt : M sender unit :=
  s ← get;
  for_each (seqZ (A_base s) (A_nextseq s - A_base s)) (λ i,
    let idx := Z.rem i SEQSPACE in
    a ← rd A_acked idx;
    if a : bool then ret tt
    else
      p ← rd A_window idx;
      emit (tolayer3 A p);;
      modify (λ s, set_packets_resent (packets_resent s + 1) s);;
      running ← rd A_timer_running idx;
      (if running : bool then emit (stoptimer A) else ret tt);;
      emit (starttimer A RTT);;
      wr A_timer_running set_A_timer_running idx true).

Definition B_init : M receiver unit :=
  modify (set_B_base 0);;
  for_each (seqZ 0 WINDOWSIZE) (λ i, wr B_received set_B_received i false).

(** [while (B_received[B_base % SEQSPACE]) { ... tolayer5 ... B_base++; }] *)
Fixpoint B_deliver (fuel : nat) : M receiver unit :=
  match fuel with
  | O => lift (Fault OutOfFuel)
  | S fuel' =>
      s ← get;
      r ← rd B_received (Z.rem (B_base s) SEQSPACE);
      if r : bool then
        let idx := Z.rem (B_base s) SEQSPACE in
        p ← rd B_buffer idx;
        emit (tolayer5 B (payload p));;
        wr B_received set_B_received idx false;;
        modify (λ s, set_B_base (int_add (B_base s) 1) s);;
        B_deliver fuel'
      else ret tt
  end.

Definition B_input (packet : pkt) : M receiver unit :=
  let ackpkt := Pkt NOTINUSE (seqnum packet) 0 zero_payload in
  let ackpkt := set_checksum (ComputeChecksum ackpkt) ackpkt in
  s ← get;
  let inWindow :=
    existsb (λ i, bool_decide (seqnum packet = Z.rem i SEQSPACE))
            (seqZ (B_base s) (int_add (B_base s) WINDOWSIZE - B_base s)) in
  (if negb (IsCorrupted packet) && inWindow then
     let idx := seqnum packet in
     r ← rd B_received idx;
     (if r : bool then ret tt
      else wr B_buffer set_B_buffer idx packet;;
           wr B_received set_B_received idx true);;
     emit (tolayer3 B ackpkt)
   else
     let lastack :=
       if bool_decide (B_base s = 0) then int_add SEQSPACE (-1)
       else Z.rem (int_add (B_base s) (-1)) SEQSPACE in
     let ackpkt := set_acknum lastack ackpkt in
     let ackpkt := set_checksum (ComputeChecksum ackpkt) ackpkt in
     emit (tolayer3 B ackpkt));;
  s ← get;
  B_deliver (S (length (B_received s))).

Definition B_output (message : msg) : M receiver unit := ret tt.
Definition B_timerinterrupt : M receiver unit := ret tt.

Definition A_step (c : A_call) : M sender unit :=
  match c with
  | Call_A_output message => A_output message
  | Call_A_input packet => A_input packet
  | Call_A_timerinterrupt => A_timerinterrupt
  end.

(** The sender and the receiver once the emulator has initialised them. *)
Definition A_start : list event * res sender := exec A_init sender_statics.
Definition B_start : list event * res receiver := exec B_init receiver_statics.

End Sr.

(** ** src/ass2/sr.c

    The statics [B_nextseq], [expectedseqnum] and [B_nextseqnum] of this
    file are never read or written and are left out. Whether a plain
    [char] is signed is up to the platform: it is the parameter
    [char_signed] of everything that computes a checksum. *)

Module Ass2.
Section plain_char.
Variable char_signed : bool.

(** [(int) c] for a plain [char c]. *)
Definition char_to_int (c : byte) : Z :=
  if char_signed then schar c else uchar c.

(** [ComputeChecksum]: [checksum = seqnum + acknum], then
    [checksum += (int) payload[i]] for [i = 0 .. 19]. *)
Definition ComputeChecksum (packet : pkt) : Z :=
  foldl (λ checksum c, int_add checksum (char_to_int c))
        (int_add (seqnum packet) (acknum packet))
        (vec_to_list (payload packet)).

Definition IsCorrupted (packet : pkt) : bool :=
  bool_decide (checksum packet ≠ ComputeChecksum packet).

Definition A_output (message : msg) : M sender unit :=
  s ← get;
  if bool_decide (A_nextseq s < int_add (A_base s) WINDOWSIZE) then
    let seq := Z.rem (A_nextseq s) WINDOWSIZE in
    let p := Pkt (A_nextseq s) NOTINUSE 0 (data message) in
    let p := set_checksum (ComputeChecksum p) p in
    wr A_window set_A_window seq p;;
    wr A_acked set_A_acked seq false;;
    emit (tolayer3 A p);;
    running ← rd A_timer_running seq;
    (if running : bool then ret tt
     else emit (starttimer A RTT);;
          wr A_timer_running set_A_timer_running seq true);;
    modify (λ s, set_A_nextseq (int_add (A_nextseq s) 1) s)
  else
    modify (λ s, set_window_full (window_full s + 1) s).

(** [while (A_acked[A_base % WINDOWSIZE]) { A_acked[...] = false; A_base++; }] *)
Fixpoint A_slide (fuel : nat) : M sender unit :=
  match fuel with
  | O => lift (Fault OutOfFuel)
  | S fuel' =>
      s ← get;
      a ← rd A_acked (Z.rem (A_base s) WINDOWSIZE);
      if a : bool then
        wr A_acked set_A_acked (Z.rem (A_base s) WINDOWSIZE) false;;
        modify (λ s, set_A_base (int_add (A_base s) 1) s);;
        A_slide fuel'
      else ret tt
  end.

Definition A_input (packet : pkt) : M sender unit :=
  s ← get;
  if negb (IsCorrupted packet)
     && bool_decide (A_base s ≤ acknum packet)
     && bool_decide (acknum packet < A_nextseq s) then
    let idx := Z.rem (acknum packet) WINDOWSIZE in
    a ← rd A_acked idx;
    if a : bool then ret tt
    else
      wr A_acked set_A_acked idx true;;
      modify (λ s, set_total_ACKs_received (total_ACKs_received s + 1) s);;
      running ← rd A_timer_running idx;
      (if running : bool then
         emit (stoptimer A);;
         wr A_timer_running set_A_timer_running idx false
       else ret tt);;
      s ← get;
      A_slide (S (length (A_acked s)))
  else ret tt.

Definition A_timerinterrupt : M sender unit :=
  s ← get;
  for_each (seqZ (A_base s) (A_nextseq s - A_base s)) (λ seqnum,
    let idx := Z.rem seqnum WINDOWSIZE in
    a ← rd A_acked idx;
    if a : bool then ret tt
    else
      p ← rd A_window idx;
      emit (tolayer3 A p);;
      modify (λ s, set_packets_resent (packets_resent s + 1) s);;
      running ← rd A_timer_running idx;
      (if running : bool then emit (stoptimer A) else ret tt);;
      emit (starttimer A RTT);;
      wr A_timer_running set_A_timer_running idx true).

Definition A_init : M sender unit :=
  modify (set_A_base 0);;
  modify (set_A_nextseq 0);;
  for_each (seqZ 0 WINDOWSIZE) (λ i,
    wr A_acked set_A_acked i false;;
    wr A_timer_running set_A_timer_running i false).

(** [while (B_received[B_base % WINDOWSIZE]) { ... tolayer5 ... B_base++; }] *)
Fixpoint B_deliver (fuel : nat) : M receiver unit :=
  match fuel with
  | O => lift (Fault OutOfFuel)
  | S fuel' =>
      s ← get;
      r ← rd B_received (Z.rem (B_base s) WINDOWSIZE);
      if r : bool then
        let idx := Z.rem (B_base s) WINDOWSIZE in
        p ← rd B_buffer idx;
        emit (tolayer5 B (payload p));;
        wr B_received set_B_received idx false;;
        modify (λ s, set_B_base (int_add (B_base s) 1) s);;
        B_deliver fuel'
      else ret tt
  end.

Definition B_input (packet : pkt) : M receiver unit :=
  let ackpkt := Pkt NOTINUSE (seqnum packet) 0 zero_payload in
  let ackpkt := set_checksum (ComputeChecksum ackpkt) ackpkt in
  s ← get;
  (if negb (IsCorrupted packet)
      && bool_decide (B_base s ≤ seqnum packet)
      && bool_decide (seqnum packet < int_add (B_base s) WINDOWSIZE) then
     let idx := Z.rem (seqnum packet) WINDOWSIZE in
     r ← rd B_received idx;
     (if r : bool then ret tt
      else wr B_buffer set_B_buffer idx packet;;
           wr B_received set_B_received idx true);;
     emit (tolayer3 B ackpkt)
   else
     let lastack :=
       if bool_decide (B_base s = 0) then int_add SEQSPACE (-1)
       else int_add (B_base s) (-1) in
     let ackpkt := set_acknum lastack ackpkt in
     let ackpkt := set_checksum (ComputeChecksum ackpkt) ackpkt in
     emit (tolayer3 B ackpkt));;
  s ← get;
  B_deliver (S (length (B_received s))).

Definition B_init : M receiver unit :=
  modify (set_B_base 0);;
  for_each (seqZ 0 WINDOWSIZE) (λ i, wr B_received set_B_received i false).

Definition B_output (message : msg) : M receiver unit := ret tt.
Definition B_timerinterrupt : M receiver unit := ret tt.

Definition A_step (c : A_call) : M sender unit :=
  match c with
  | Call_A_output message => A_output message
  | Call_A_input packet => A_input packet
  | Call_A_timerinterrupt => A_timerinterrupt
  end.

End plain_char.
End Ass2.

Definition mk_payload (c : byte) : vec byte 20 := vreplicate 20 c.
Definition data_pkt (seq : Z) (c : byte) : pkt :=
  let p := Pkt seq NOTINUSE 0 (mk_payload c) in set_checksum (Sr.ComputeChecksum p) p.
Definition ack_pkt (ack : Z) : pkt :=
  let p := Pkt NOTINUSE ack 0 zero_payload in set_checksum (Sr.ComputeChecksum p) p.


(** ** Notions used to state the properties *)

(** The sum of the payload bytes, each taken as a value in [0 .. 255]. *)
Definition payload_sum (d : vec byte 20) : Z :=
  foldr (λ c acc, uchar c + acc) 0 (vec_to_list d).

(** The units handed to the channel and the payloads handed to the
    application by a trace. *)
Definition sent (who : entity) (t : list event) : list pkt :=
  omap (λ e, match e with
             | tolayer3 w p => if decide (w = who) then Some p else None
             | _ => None
             end) t.

Definition delivered (t : list event) : list (vec byte 20) :=
  omap (λ e, match e with tolayer5 B d => Some d | _ => None end) t.

(** The outcome of running [m] from [s] satisfies [Q]. *)
Definition wp {St T} (m : M St T) (s : St)
    (Q : list event → res (T * St) → Prop) : Prop :=
  Q (m s).1 (m s).2.

(** What holds of the sender between two calls, in every run of src/sr.c
    that stays within the arrays. *)
Record A_inv (s : sender) : Prop := {
  A_inv_window : length (A_window s) = Z.to_nat WINDOWSIZE;
  A_inv_acked : length (A_acked s) = Z.to_nat WINDOWSIZE;
  A_inv_timer : length (A_timer_running s) = Z.to_nat WINDOWSIZE;
  A_inv_base : 0 ≤ A_base s ≤ A_nextseq s;
  A_inv_nextseq : A_nextseq s ≤ A_base s + WINDOWSIZE;
  A_inv_slots : A_nextseq s ≤ WINDOWSIZE;
  A_inv_flags : ∀ i : nat, A_acked s !! i = Some true →
    ∃ j, A_base s ≤ j < A_nextseq s ∧ Z.rem j SEQSPACE = Z.of_nat i
}.

(** The states of the sender that the emulator can bring about: [A_init]
    on the loaded program, then any calls, none of which faults. *)
Definition A_reachable (s : sender) : Prop :=
  ∃ cs t, exec (Sr.A_init;; run Sr.A_step cs) sender_statics = (t, Ok s).

Definition B_reachable (s : receiver) : Prop :=
  ∃ ps t, exec (Sr.B_init;; run Sr.B_input ps) receiver_statics = (t, Ok s).

(** The parts of the sender that [A_slide] leaves alone. *)
Definition A_same_but_acked_base (s s' : sender) : Prop :=
  A_window s' = A_window s ∧ A_timer_running s' = A_timer_running s ∧
  A_nextseq s' = A_nextseq s ∧ window_full s' = window_full s ∧
  total_ACKs_received s' = total_ACKs_received s ∧
  packets_resent s' = packets_resent s.

(** Of the logical sequence numbers [l], those whose slot is not marked
    acknowledged in [s]; [A_unacked s] are those of the sender's window
    [[A_base, A_nextseq)], in increasing order. *)
Definition unacked_in (s : sender) (l : list Z) : list Z :=
  filter (λ i, A_acked s !! Z.to_nat (Z.rem i SEQSPACE) = Some false) l.

Definition A_unacked (s : sender) : list Z :=
  unacked_in s (seqZ (A_base s) (A_nextseq s - A_base s)).

(** The unit buffered for the logical sequence number [i]. *)
Definition A_buffered (s : sender) (i : Z) : pkt :=
  A_window s !!! Z.to_nat (Z.rem i SEQSPACE).

(** The body of the loop of [A_timerinterrupt], as in [Sr.A_timerinterrupt],
    and what running it over the logical sequence numbers [l] from [s]
    does, [s0] being the state at entry of [A_timerinterrupt]. *)
Definition A_resend_body (i : Z) : M sender unit :=
  let idx := Z.rem i SEQSPACE in
  a ← rd A_acked idx;
  if a : bool then mret tt
  else
    p ← rd A_window idx;
    emit (tolayer3 A p);;
    modify (λ s, set_packets_resent (packets_resent s + 1) s);;
    running ← rd A_timer_running idx;
    (if running : bool then emit (stoptimer A) else mret tt);;
    emit (starttimer A RTT);;
    wr A_timer_running set_A_timer_running idx true.

Record A_resend_post (s0 s : sender) (l : list Z)
    (t : list event) (s' : sender) : Prop := {
  resend_window : A_window s' = A_window s0;
  resend_acked : A_acked s' = A_acked s0;
  resend_base : A_base s' = A_base s;
  resend_nextseq : A_nextseq s' = A_nextseq s;
  resend_window_full : window_full s' = window_full s;
  resend_total_ACKs : total_ACKs_received s' = total_ACKs_received s;
  resend_count :
    packets_resent s' = packets_resent s + Z.of_nat (length (unacked_in s0 l));
  resend_sent : sent A t = A_buffered s0 <$> unacked_in s0 l;
  resend_timer_len : length (A_timer_running s') = length (A_timer_running s);
  resend_timer_set : ∀ i, i ∈ unacked_in s0 l →
    A_timer_running s' !! Z.to_nat (Z.rem i SEQSPACE) = Some true;
  resend_timer_other : ∀ k : nat,
    (∀ i, i ∈ unacked_in s0 l → Z.to_nat (Z.rem i SEQSPACE) ≠ k) →
    A_timer_running s' !! k = A_timer_running s !! k
}.

(** ** Concrete runs *)

Definition msg_of (c : byte) : msg := Msg (mk_payload c).

(** The sender after [A_init] and the calls [cs], and the trace so far. *)
Definition A_trace (cs : list A_call) : list event :=
  (exec (Sr.A_init;; run Sr.A_step cs) sender_statics).1.

Definition A_outcome (cs : list A_call) : res sender :=
  (exec (Sr.A_init;; run Sr.A_step cs) sender_statics).2.

Definition A_after (cs : list A_call) : sender :=
  match (exec (Sr.A_init;; run Sr.A_step cs) sender_statics).2 with
  | Ok s => s
  | Fault _ => sender_statics
  end.

(** Three messages, the acknowledgment of the second, a timeout. *)
Definition calls_abc : list A_call :=
  [Call_A_output (msg_of "a"); Call_A_output (msg_of "b");
   Call_A_output (msg_of "c"); Call_A_input (ack_pkt 1);
   Call_A_timerinterrupt].

(** What holds of the receiver of src/sr.c in every run that stays within
    the arrays, [arrived] being the units received so far: a slot marked
    received holds an uncorrupted unit that arrived with the slot's index
    as its sequence number. *)
Record B_inv (arrived : list pkt) (s : receiver) : Prop := {
  B_inv_buffer : length (B_buffer s) = Z.to_nat WINDOWSIZE;
  B_inv_received : length (B_received s) = Z.to_nat WINDOWSIZE;
  B_inv_base : 0 ≤ B_base s ≤ WINDOWSIZE;
  B_inv_slots : ∀ i : nat, B_received s !! i = Some true →
    ∃ p, B_buffer s !! i = Some p ∧ p ∈ arrived ∧
         Sr.IsCorrupted p = false ∧ seqnum p = Z.of_nat i
}.

(** Between two calls the slot of [B_base] is not marked received. *)
Definition B_idle (s : receiver) : Prop :=
  B_received s !! Z.to_nat (Z.rem (B_base s) SEQSPACE) = Some false.

(** The units [qs] are uncorrupted units among [arrived] and carry the
    sequence numbers of the logical positions [b], [b + 1], ... in turn. *)
Definition in_order_from (arrived : list pkt) (b : Z) (qs : list pkt) : Prop :=
  seqnum <$> qs = (λ i, i mod SEQSPACE) <$> seqZ b (Z.of_nat (length qs)) ∧
  Forall (λ q, q ∈ arrived ∧ Sr.IsCorrupted q = false) qs.

Definition B_trace (ps : list pkt) : list event :=
  (exec (Sr.B_init;; run Sr.B_input ps) receiver_statics).1.

Definition B_outcome (ps : list pkt) : res receiver :=
  (exec (Sr.B_init;; run Sr.B_input ps) receiver_statics).2.

Definition B_after (ps : list pkt) : receiver :=
  match B_outcome ps with
  | Ok s => s
  | Fault _ => receiver_statics
  end.

(** Six messages fill the window; the acknowledgment of the first opens it
    again. *)
Definition calls_six : list A_call :=
  Call_A_output ∘ msg_of <$> ["a"; "b"; "c"; "d"; "e"; "f"]%byte.

Definition calls_six_ack0 : list A_call :=
  calls_six ++ [Call_A_input (ack_pkt 0)].

(** Six messages, then the acknowledgments of the first five, in order. *)
Definition calls_six_ack04 : list A_call :=
  calls_six ++ (Call_A_input ∘ ack_pkt <$> [0; 1; 2; 3; 4]).

(** Two messages, the second acknowledged first (scenario B). *)
Definition calls_two_ack1 : list A_call :=
  [Call_A_output (msg_of "a"); Call_A_output (msg_of "b");
   Call_A_input (ack_pkt 1)].

(** The data units 0 .. 5, uncorrupted and in order. *)
Definition units_six : list pkt :=
  [data_pkt 0 "a"; data_pkt 1 "b"; data_pkt 2 "c";
   data_pkt 3 "d"; data_pkt 4 "e"; data_pkt 5 "f"].

(** Modelled from the spec: the single alarm of an endpoint, which is part
    of the emulator and not of the sources. [starttimer] arms it,
    [stoptimer] disarms it (a no-op when it is not armed); starting it
    while it is armed is not a defined input. [double_start who armed t]
    tells whether the trace [t], begun with the alarm of [who] in the state
    [armed], starts the alarm while it is armed. *)
Fixpoint double_start (who : entity) (armed : bool) (t : list event) : bool :=
  match t with
  | [] => false
  | starttimer w _ :: t' =>
      if decide (w = who) then armed || double_start who true t'
      else double_start who armed t'
  | stoptimer w :: t' =>
      if decide (w = who) then double_start who false t'
      else double_start who armed t'
  | _ :: t' => double_start who armed t'
  end.

(** ** Notions used for the further properties *)

Definition set_seqnum (n : Z) (p : pkt) : pkt :=
  {| seqnum := n; acknum := acknum p; checksum := checksum p; payload := payload p |}.

Definition set_payload (d : vec byte 20) (p : pkt) : pkt :=
  {| seqnum := seqnum p; acknum := acknum p; checksum := checksum p; payload := d |}.

(** The fields of a unit are C [int]s. *)
Definition pkt_ints (p : pkt) : Prop :=
  in_int (seqnum p) ∧ in_int (acknum p) ∧ in_int (checksum p).

(** Two data units that differ by the order of the first two payload bytes. *)
Definition unit_xy : pkt :=
  data_pkt 3 "a".
Definition payload_xy : vec byte 20 :=
  vinsert 0%fin "x"%byte (vinsert 1%fin "y"%byte (mk_payload "a")).
Definition payload_yx : vec byte 20 :=
  vinsert 0%fin "y"%byte (vinsert 1%fin "x"%byte (mk_payload "a")).

(** The sequence number [n] lies in the receive window of [s], modulo
    [SEQSPACE]. *)
Definition B_in_window (s : receiver) (n : Z) : Prop :=
  ∃ i, B_base s ≤ i < B_base s + WINDOWSIZE ∧ n = i mod SEQSPACE.

(** The data unit that [A_output] builds for the message [m] under the
    sequence number [n]. *)
Definition data_unit (n : Z) (m : msg) : pkt :=
  let p := Pkt n NOTINUSE 0 (data m) in set_checksum (Sr.ComputeChecksum p) p.

(** The arrays of a sender have their declared size. *)
Definition sender_sized (s : sender) : Prop :=
  length (A_window s) = Z.to_nat WINDOWSIZE ∧
  length (A_acked s) = Z.to_nat WINDOWSIZE ∧
  length (A_timer_running s) = Z.to_nat WINDOWSIZE.

(** The acknowledgment number [a] names a sequence number of the sender's
    window [[A_base, A_nextseq)], modulo [SEQSPACE]. *)
Definition A_in_window (s : sender) (a : Z) : Prop :=
  ∃ i, A_base s ≤ i < A_nextseq s ∧ a = i mod SEQSPACE.

(** What the slide loop of [A_input] has done when it stops with [A_base]
    at [b']: the slots of [[A_base s, b')] were marked and are cleared,
    every other flag and everything else is as before. *)
Record A_slid (s : sender) (b' : Z) (s' : sender) : Prop := {
  slid_base : A_base s' = b';
  slid_same : A_same_but_acked_base s s';
  slid_len : length (A_acked s') = length (A_acked s);
  slid_flags : ∀ k : nat, A_acked s' !! k = Some true ↔
    A_acked s !! k = Some true ∧ ¬ (A_base s ≤ Z.of_nat k < b');
  slid_stop : A_acked s !! Z.to_nat b' = Some false
}.

(** A well-formed data unit: it passes the checksum, acknowledges nothing
    and carries a sequence number of the sequence space. *)
Definition data_unit_ok (p : pkt) : Prop :=
  Sr.IsCorrupted p = false ∧ acknum p = NOTINUSE ∧ 0 ≤ seqnum p < SEQSPACE.

(** What holds in addition of the sender of src/sr.c between calls: an
    unacknowledged slot of the window has its timer flag set, and the slot
    of a sequence number of the window holds the data unit sent under that
    number. *)
Record A_inv_units (s : sender) : Prop := {
  units_inv : A_inv s;
  units_armed : ∀ j, A_base s ≤ j < A_nextseq s →
    A_acked s !! Z.to_nat j = Some false →
    A_timer_running s !! Z.to_nat j = Some true;
  units_window : ∀ j, A_base s ≤ j < A_nextseq s →
    ∃ p, A_window s !! Z.to_nat j = Some p ∧ seqnum p = j ∧ data_unit_ok p
}.

(** The result of a call without the value it returns. *)
Definition strip {St T} (r : res (T * St)) : res St :=
  match r with
  | Ok (_, s) => Ok s
  | Fault f => Fault f
  end.

(** ** Notions for src/ass2/sr.c *)

(** What holds of the sender of src/ass2/sr.c between calls: the window is
    at most [WINDOWSIZE] wide, and a slot marked acknowledged is the slot
    [j mod WINDOWSIZE] of a sequence number [j] of the window. *)
Record A2_inv (s : sender) : Prop := {
  A2_window : length (A_window s) = Z.to_nat WINDOWSIZE;
  A2_acked : length (A_acked s) = Z.to_nat WINDOWSIZE;
  A2_timer : length (A_timer_running s) = Z.to_nat WINDOWSIZE;
  A2_base : 0 ≤ A_base s ≤ A_nextseq s;
  A2_nextseq : A_nextseq s ≤ A_base s + WINDOWSIZE;
  A2_flags : ∀ i : nat, A_acked s !! i = Some true →
    ∃ j, A_base s ≤ j < A_nextseq s ∧ j mod WINDOWSIZE = Z.of_nat i
}.

(** The trace and the outcome of [A_init] followed by the calls [cs]. *)
Definition A2_trace (sg : bool) (cs : list A_call) : list event :=
  (exec (Ass2.A_init;; run (Ass2.A_step sg) cs) sender_statics).1.

Definition A2_outcome (sg : bool) (cs : list A_call) : res sender :=
  (exec (Ass2.A_init;; run (Ass2.A_step sg) cs) sender_statics).2.

(** What holds of the receiver of src/ass2/sr.c between two calls,
    [arrived] being the units received so far: a slot marked received
    holds an uncorrupted unit that arrived with a sequence number of the
    window [lo .. hi - 1] whose remainder by [WINDOWSIZE] is the slot's
    index. *)
Definition B2_slots (sg : bool) (arrived : list pkt) (lo hi : Z)
    (s : receiver) : Prop :=
  ∀ i : nat, B_received s !! i = Some true →
    ∃ p, B_buffer s !! i = Some p ∧ p ∈ arrived ∧
         Ass2.IsCorrupted sg p = false ∧
         lo ≤ seqnum p < hi ∧ seqnum p mod WINDOWSIZE = Z.of_nat i.

Record B2_inv (sg : bool) (arrived : list pkt) (s : receiver) : Prop := {
  B2_buffer : length (B_buffer s) = Z.to_nat WINDOWSIZE;
  B2_received : length (B_received s) = Z.to_nat WINDOWSIZE;
  B2_base : 0 ≤ B_base s;
  B2_room : B_base s + WINDOWSIZE ≤ INT_MAX;
  B2_window : B2_slots sg arrived (B_base s) (B_base s + WINDOWSIZE) s
}.

(** The units [qs] are uncorrupted units among [arrived] and carry the
    sequence numbers [b], [b + 1], ... in turn. *)
Definition in_seq_from (sg : bool) (arrived : list pkt) (b : Z)
    (qs : list pkt) : Prop :=
  seqnum <$> qs = seqZ b (Z.of_nat (length qs)) ∧
  Forall (λ q, q ∈ arrived ∧ Ass2.IsCorrupted sg q = false) qs.

(** The trace and the outcome of [B_init] followed by the arrival of the
    units [ps]. *)
Definition B2_trace (sg : bool) (ps : list pkt) : list event :=
  (exec (Ass2.B_init;; run (Ass2.B_input sg) ps) receiver_statics).1.

Definition B2_outcome (sg : bool) (ps : list pkt) : res receiver :=
  (exec (Ass2.B_init;; run (Ass2.B_input sg) ps) receiver_statics).2.

(** A data unit as [A_output] of src/ass2/sr.c builds it. *)
Definition data_pkt2 (sg : bool) (seq : Z) (d : vec byte 20) : pkt :=
  let p := Pkt seq NOTINUSE 0 d in set_checksum (Ass2.ComputeChecksum sg p) p.

(** * Properties *)

(** ** Machine integers *)

Lemma wrap_small z : in_int z → wrap z = z.
Proof.
  unfold in_int, INT_MIN, INT_MAX, wrap. intros Hz.
  rewrite Z.mod_small by lia. lia.
Qed.

Lemma wrap_in_int z : in_int (wrap z).
Proof.
  unfold in_int, INT_MIN, INT_MAX, wrap.
  pose proof (Z.mod_pos_bound (z + 2 ^ 31) (2 ^ 32)). lia.
Qed.

Lemma wrap_add_l a b : wrap (wrap a + b) = wrap (a + b).
Proof.
  unfold wrap. f_equal.
  replace (((a + 2 ^ 31) mod 2 ^ 32 - 2 ^ 31) + b + 2 ^ 31)
    with ((a + 2 ^ 31) mod 2 ^ 32 + b) by lia.
  rewrite Zplus_mod_idemp_l. f_equal. lia.
Qed.

Lemma int_add_small a b : in_int (a + b) → int_add a b = a + b.
Proof. apply wrap_small. Qed.

Lemma uchar_range c : 0 ≤ uchar c ≤ 255.
Proof.
  unfold uchar. pose proof (Byte.to_N_bounded c) as H.
  lia.
Qed.

(** ** Arrays *)

Lemma load_Ok {T} (a : list T) i x :
  load a i = Ok x ↔ 0 ≤ i < Z.of_nat (length a) ∧ a !! Z.to_nat i = Some x.
Proof.
  unfold load. case_bool_decide.
  - destruct (a !! Z.to_nat i) eqn:E.
    + apply lookup_lt_Some in E as Hlt. split.
      * intros [= ->]. split; [lia | done].
      * intros [_ [= ->]]. done.
    + split; [done | intros [_ ?]; done].
  - split; [done | lia].
Qed.

Lemma load_Fault {T} (a : list T) i f :
  load a i = Fault f ↔ f = OutOfBounds ∧ ¬ (0 ≤ i < Z.of_nat (length a)).
Proof.
  unfold load. case_bool_decide.
  - destruct (a !! Z.to_nat i) eqn:E.
    + apply lookup_lt_Some in E. split; [done | lia].
    + apply lookup_ge_None in E. split; [intros [= <-]; split; [done | lia] | by intros [-> _]].
  - split; [intros [= <-]; split; [done | lia] | by intros [-> _]].
Qed.

Lemma store_Ok {T} (a : list T) i x a' :
  store a i x = Ok a' ↔ 0 ≤ i < Z.of_nat (length a) ∧ a' = <[Z.to_nat i := x]> a.
Proof.
  unfold store. case_bool_decide; split; try done.
  - by intros [= <-].
  - by intros [_ ->].
  - intros [? _]. lia.
Qed.

Lemma store_Fault {T} (a : list T) i x f :
  store a i x = Fault f ↔ f = OutOfBounds ∧ ¬ (0 ≤ i < Z.of_nat (length a)).
Proof.
  unfold store. case_bool_decide; split; try done.
  - by intros [_ ?].
  - by intros [= <-].
  - by intros [-> _].
Qed.

(** ** Inversion of monadic runs *)

Section monad_inversion.
Context {St : Type}.
Implicit Types s : St.

Lemma bind_inv {T U} (m : M St T) (k : T → M St U) s t r :
  (m ≫= k) s = (t, r) →
  (∃ f, m s = (t, Fault f) ∧ r = Fault f) ∨
  (∃ t1 x s1 t2, m s = (t1, Ok (x, s1)) ∧ k x s1 = (t2, r) ∧ t = t1 ++ t2).
Proof.
  unfold mbind, M_bind, bind.
  destruct (m s) as [t1 [[x s1]|f]].
  - destruct (k x s1) as [t2 r2] eqn:E. intros [= <- <-].
    right. by exists t1, x, s1, t2.
  - intros [= <- <-]. left. by exists f.
Qed.

Lemma bind_Ok {T U} (m : M St T) (k : T → M St U) s t1 x s1 :
  m s = (t1, Ok (x, s1)) →
  (m ≫= k) s = (t1 ++ fst (k x s1), snd (k x s1)).
Proof.
  unfold mbind, M_bind, bind. intros ->. by destruct (k x s1).
Qed.

Lemma bind_Fault {T U} (m : M St T) (k : T → M St U) s t1 f :
  m s = (t1, Fault f) → (m ≫= k) s = (t1, Fault f).
Proof. unfold mbind, M_bind, bind. by intros ->. Qed.

Lemma rd_inv {T} (arr : St → list T) i s t r :
  rd arr i s = (t, r) →
  t = [] ∧
  ((∃ x, r = Ok (x, s) ∧ 0 ≤ i < Z.of_nat (length (arr s)) ∧
         arr s !! Z.to_nat i = Some x) ∨
   (r = Fault OutOfBounds ∧ ¬ (0 ≤ i < Z.of_nat (length (arr s))))).
Proof.
  unfold rd, mbind, M_bind, bind, get, lift.
  destruct (load (arr s) i) as [x|f] eqn:E; intros [= <- <-]; (split; [done|]).
  - left. exists x. by apply load_Ok in E.
  - right. apply load_Fault in E as [-> ?]. done.
Qed.

Lemma wr_inv {T} (arr : St → list T) upd i (x : T) s t r :
  wr arr upd i x s = (t, r) →
  t = [] ∧
  ((r = Ok (tt, upd (<[Z.to_nat i := x]> (arr s)) s) ∧
      0 ≤ i < Z.of_nat (length (arr s))) ∨
   (r = Fault OutOfBounds ∧ ¬ (0 ≤ i < Z.of_nat (length (arr s))))).
Proof.
  unfold wr, mbind, M_bind, bind, get, lift, put.
  destruct (store (arr s) i x) as [a|f] eqn:E; intros [= <- <-]; (split; [done|]).
  - left. by apply store_Ok in E as [? ->].
  - right. apply store_Fault in E as [-> ?]. done.
Qed.

Lemma rd_Ok {T} (arr : St → list T) i s x :
  0 ≤ i → arr s !! Z.to_nat i = Some x → rd arr i s = ([], Ok (x, s)).
Proof.
  intros Hi Hx. unfold rd, mbind, M_bind, bind, get, lift, load.
  rewrite bool_decide_eq_true_2 by done. by rewrite Hx.
Qed.

Lemma wr_Ok {T} (arr : St → list T) upd i (x : T) s :
  0 ≤ i < Z.of_nat (length (arr s)) →
  wr arr upd i x s = ([], Ok (tt, upd (<[Z.to_nat i := x]> (arr s)) s)).
Proof.
  intros Hi. unfold wr, mbind, M_bind, bind, get, lift, put, store.
  by rewrite bool_decide_eq_true_2.
Qed.
End monad_inversion.

(** ** Checksum *)

Lemma checksum_fold (l : list byte) (a : Z) :
  foldl (λ sum c, int_add sum (uchar c)) (wrap a) l
  = wrap (a + foldr (λ c acc, uchar c + acc) 0 l).
Proof.
  revert a. induction l as [|c l IH]; intros a; simpl.
  - f_equal. lia.
  - unfold int_add at 2. rewrite wrap_add_l, IH. f_equal. lia.
Qed.

Lemma ComputeChecksum_wrap p :
  Sr.ComputeChecksum p = wrap (seqnum p + acknum p + payload_sum (payload p)).
Proof. unfold Sr.ComputeChecksum, int_add, payload_sum. apply checksum_fold. Qed.

Lemma ComputeChecksum_set_checksum c p :
  Sr.ComputeChecksum (set_checksum c p) = Sr.ComputeChecksum p.
Proof. done. Qed.

Lemma payload_sum_range d : 0 ≤ payload_sum d ≤ 20 * 255.
Proof.
  unfold payload_sum.
  pose proof (length_vec_to_list d) as Hlen.
  assert (∀ l : list byte,
    0 ≤ foldr (λ c acc, uchar c + acc) 0 l ≤ Z.of_nat (length l) * 255) as H.
  { induction l as [|c l IH]; simpl; [lia|]. pose proof (uchar_range c). lia. }
  specialize (H (vec_to_list d)). rewrite Hlen in H. lia.
Qed.

(** C7. [ComputeChecksum] is [seqnum + acknum] plus the twenty payload
    bytes read as unsigned values in [0 .. 255], computed in [int]
    arithmetic (exactly that sum whenever the sum is an [int]), and
    [IsCorrupted] holds exactly when the checksum field differs from it.
    Both are functions of the unit alone: they neither read nor change the
    state of an endpoint and emit no event. *)
Theorem C7_checksum_formula (p : pkt) :
  Sr.ComputeChecksum p = wrap (seqnum p + acknum p + payload_sum (payload p))
  ∧ (in_int (seqnum p + acknum p + payload_sum (payload p)) →
     Sr.ComputeChecksum p = seqnum p + acknum p + payload_sum (payload p))
  ∧ length (vec_to_list (payload p)) = 20%nat
  ∧ Forall (λ c, 0 ≤ uchar c ≤ 255) (vec_to_list (payload p))
  ∧ (Sr.IsCorrupted p = true ↔ checksum p ≠ Sr.ComputeChecksum p).
Proof.
  split_and!.
  - apply ComputeChecksum_wrap.
  - intros Hr. rewrite ComputeChecksum_wrap. by apply wrap_small.
  - apply length_vec_to_list.
  - apply Forall_forall. intros c _. apply uchar_range.
  - unfold Sr.IsCorrupted. apply bool_decide_eq_true.
Qed.

(** ** Reasoning about outcomes *)

Ltac Zify.zify_post_hook ::= Z.to_euclidean_division_equations.

Section wp_rules.
Context {St : Type}.
Implicit Types s : St.

Lemma wp_eq {T} (m : M St T) s t r Q : m s = (t, r) → wp m s Q → Q t r.
Proof. unfold wp. by intros ->. Qed.

Lemma wp_intro {T} (m : M St T) s : wp m s (λ t r, m s = (t, r)).
Proof. unfold wp. by destruct (m s). Qed.

Lemma wp_mono {T} (m : M St T) s (Q Q' : list event → res (T * St) → Prop) :
  wp m s Q → (∀ t r, Q t r → Q' t r) → wp m s Q'.
Proof. unfold wp. auto. Qed.

Lemma wp_ret {T} (x : T) s Q : Q [] (Ok (x, s)) → wp (mret x) s Q.
Proof. done. Qed.

Lemma wp_bind {T U} (m : M St T) (k : T → M St U) s Q :
  wp m s (λ t r, match r with
                 | Ok (x, s') => wp (k x) s' (λ t' r', Q (t ++ t') r')
                 | Fault f => Q t (Fault f)
                 end) →
  wp (m ≫= k) s Q.
Proof.
  unfold wp, mbind, M_bind, bind.
  destruct (m s) as [t [[x s']|f]]; simpl; [|done].
  by destruct (k x s').
Qed.

Lemma wp_get s Q : Q [] (Ok (s, s)) → wp get s Q.
Proof. done. Qed.

Lemma wp_put s s' Q : Q [] (Ok (tt, s')) → wp (put s') s Q.
Proof. done. Qed.

Lemma wp_modify (f : St → St) s Q : Q [] (Ok (tt, f s)) → wp (modify f) s Q.
Proof. done. Qed.

Lemma wp_emit e s Q : Q [e] (Ok (tt, s)) → wp (emit e) s Q.
Proof. done. Qed.

Lemma wp_fault {T} f s (Q : list event → res (T * St) → Prop) :
  Q [] (Fault f) → wp (lift (Fault f)) s Q.
Proof. done. Qed.

Lemma wp_rd {T} (arr : St → list T) i s Q :
  (∀ x, 0 ≤ i < Z.of_nat (length (arr s)) → arr s !! Z.to_nat i = Some x →
        Q [] (Ok (x, s))) →
  (¬ (0 ≤ i < Z.of_nat (length (arr s))) → Q [] (Fault OutOfBounds)) →
  wp (rd arr i) s Q.
Proof.
  intros HOk HF. unfold wp.
  destruct (rd arr i s) as [t r] eqn:E.
  apply rd_inv in E as [-> [(x & -> & ? & ?)|[-> ?]]]; simpl; auto.
Qed.

Lemma wp_wr {T} (arr : St → list T) upd i (x : T) s Q :
  (0 ≤ i < Z.of_nat (length (arr s)) →
     Q [] (Ok (tt, upd (<[Z.to_nat i := x]> (arr s)) s))) →
  (¬ (0 ≤ i < Z.of_nat (length (arr s))) → Q [] (Fault OutOfBounds)) →
  wp (wr arr upd i x) s Q.
Proof.
  intros HOk HF. unfold wp.
  destruct (wr arr upd i x s) as [t r] eqn:E.
  apply wr_inv in E as [-> [[-> ?]|[-> ?]]]; simpl; auto.
Qed.

Lemma wp_exec {T} (m : M St T) s t r Q :
  exec m s = (t, r) →
  wp m s (λ t' r', match r' with
                   | Ok (_, s') => Q t' (Ok s')
                   | Fault f => Q t' (Fault f)
                   end) →
  Q t r.
Proof.
  unfold exec, wp. destruct (m s) as [t' [[x s']|f]]; simpl; by intros [= <- <-].
Qed.
End wp_rules.

(** One step of symbolic execution of the code under [wp]. *)
Ltac wp_step :=
  lazymatch goal with
  | |- wp (_ ≫= _) _ _ => apply wp_bind
  | |- wp (mret _) _ _ => apply wp_ret
  | |- wp (ret _) _ _ => apply wp_ret
  | |- wp get _ _ => apply wp_get
  | |- wp (put _) _ _ => apply wp_put
  | |- wp (modify _) _ _ => apply wp_modify
  | |- wp (emit _) _ _ => apply wp_emit
  | |- wp (lift (Fault _)) _ _ => apply wp_fault
  | |- wp (rd _ _) _ _ => apply wp_rd; [intros ? ? ? | intros ?]
  | |- wp (wr _ _ _ _) _ _ => apply wp_wr; [intros ? | intros ?]
  | |- wp (if ?b then _ else _) _ _ => destruct b eqn:?
  end.

Ltac wp_steps := repeat (wp_step; cbn beta iota).

(** ** The sender of src/sr.c between calls *)

Lemma A_inv_start :
  ∃ s, Sr.A_init sender_statics = ([], Ok (tt, s)) ∧ A_inv s
       ∧ A_base s = 0 ∧ A_nextseq s = 0.
Proof.
  eexists. split; [vm_compute; reflexivity|].
  split; [|done]. split; simpl; try done.
  intros i Hi. exfalso.
  do 6 (destruct i as [|i]; [done|]). done.
Qed.

Lemma A_slide_inv fuel s :
  A_inv s →
  A_nextseq s - A_base s < Z.of_nat fuel →
  wp (Sr.A_slide fuel) s (λ t r,
    t = [] ∧
    match r with
    | Ok (_, s') =>
        A_inv s' ∧ A_base s ≤ A_base s' ∧ A_same_but_acked_base s s' ∧
        A_acked s' !! Z.to_nat (Z.rem (A_base s') SEQSPACE) = Some false
    | Fault f => f = OutOfBounds
    end).
Proof.
  revert s. induction fuel as [|fuel IH]; intros s Hinv Hfuel.
  { destruct Hinv. lia. }
  simpl. wp_steps; simpl.
  - (* the flag at [A_base] is set: clear it and go on *)
    subst x.
    assert (A_base s < A_nextseq s) as Hlt.
    { destruct (A_inv_flags _ Hinv _ H0) as (j & Hj & _). lia. }
    eapply wp_mono.
    { apply IH.
      - destruct Hinv. unfold SEQSPACE, WINDOWSIZE in *.
        split; simpl; rewrite ?length_insert, ?int_add_small;
          unfold in_int, INT_MIN, INT_MAX, WINDOWSIZE; try done; try lia.
        intros i Hi.
        destruct (decide (i = Z.to_nat (Z.rem (A_base s) 7))) as [->|Hne].
        + rewrite list_lookup_insert_eq in Hi by lia. done.
        + rewrite list_lookup_insert_ne in Hi by done.
          destruct (A_inv_flags0 _ Hi) as (j & Hj & Hrem).
          exists j. split; [|done].
          assert (j ≠ A_base s) by (intros ->; lia). lia.
      - destruct Hinv. simpl. rewrite int_add_small;
          unfold in_int, INT_MIN, INT_MAX, WINDOWSIZE in *; lia. }
    simpl. intros t [[[] s']|f]; [|done].
    intros (-> & Hinv' & Hb & Hsame & Hflag). split; [done|].
    split_and!; try done.
    simpl in Hb. destruct Hinv.
    rewrite int_add_small in Hb; unfold in_int, INT_MIN, INT_MAX, WINDOWSIZE in *; lia.
  - done.
  - subst x. done.
  - done.
Qed.

(** Projections of updated records. *)
Ltac fields :=
  cbn [A_window A_acked A_timer_running A_base A_nextseq window_full
       total_ACKs_received packets_resent
       set_A_window set_A_acked set_A_timer_running set_A_base set_A_nextseq
       set_window_full set_total_ACKs_received set_packets_resent
       B_buffer B_received B_base set_B_buffer set_B_received set_B_base
       seqnum acknum checksum payload set_checksum set_acknum] in *.

Ltac int_arith :=
  rewrite ?int_add_small;
  unfold in_int, INT_MIN, INT_MAX, WINDOWSIZE, SEQSPACE, NOTINUSE in *;
  simpl in *; try lia.

Lemma flags_insert_false (flags : list bool) (k i : nat) :
  <[k := false]> flags !! i = Some true → i ≠ k ∧ flags !! i = Some true.
Proof.
  rewrite list_lookup_insert_Some. intros [(_ & [=] & _)|[? ?]]. done.
Qed.

Lemma flags_insert_true (flags : list bool) (k i : nat) :
  <[k := true]> flags !! i = Some true → i = k ∨ flags !! i = Some true.
Proof.
  rewrite list_lookup_insert_Some. intros [(-> & _)|[? ?]]; auto.
Qed.

Lemma A_output_inv message s :
  A_inv s →
  wp (Sr.A_output message) s (λ t r,
    match r with
    | Ok (_, s') =>
        A_inv s' ∧ A_base s' = A_base s ∧ A_nextseq s ≤ A_nextseq s'
    | Fault f => f = OutOfBounds
    end).
Proof.
  intros Hinv. unfold Sr.A_output.
  wp_step; cbn beta iota. wp_step; cbn beta iota.
  case_bool_decide as Hroom.
  - assert (A_nextseq s < A_base s + WINDOWSIZE) as Hroom'.
    { destruct Hinv. revert Hroom. int_arith. }
    wp_steps; simpl in *; try done.
    all: destruct Hinv; rewrite ?length_insert in *.
    all: split; [|int_arith].
    all: split; simpl; rewrite ?length_insert; try done; int_arith.
    all: intros i [Hne Hi]%flags_insert_false.
    all: destruct (A_inv_flags0 _ Hi) as (j & Hj & Hrem); exists j; lia.
  - wp_steps. simpl. split; [|lia]. by destruct Hinv.
Qed.

Lemma find_window_Some (ack b n i : Z) :
  find (λ i, bool_decide (ack = Z.rem i SEQSPACE)) (seqZ b n) = Some i →
  b ≤ i < b + n ∧ ack = Z.rem i SEQSPACE.
Proof.
  intros [Hin Hack]%find_some.
  apply list_elem_of_In, elem_of_seqZ in Hin.
  by apply bool_decide_eq_true in Hack.
Qed.

Lemma A_input_inv packet s :
  A_inv s →
  wp (Sr.A_input packet) s (λ t r,
    match r with
    | Ok (_, s') =>
        A_inv s' ∧ A_base s ≤ A_base s' ∧ A_nextseq s' = A_nextseq s
    | Fault f => f = OutOfBounds
    end).
Proof.
  intros Hinv. unfold Sr.A_input.
  destruct (Sr.IsCorrupted packet); [by wp_steps|].
  wp_step; cbn beta iota. wp_step; cbn beta iota.
  destruct (find _ _) as [i|] eqn:Hfind; [|by wp_steps].
  apply find_window_Some in Hfind as [Hi Hack].
  wp_step; cbn beta iota. wp_step; cbn beta iota; [|done].
  wp_step; [by wp_steps|].
  destruct s as [w a tm b n wf ta pr]; fields.
  assert (∀ tm', length tm' = Z.to_nat WINDOWSIZE →
            A_inv (Sender w (<[Z.to_nat (acknum packet) := true]> a) tm'
                          b n wf (ta + 1) pr)) as Hmark.
  { intros tm' Htm'. destruct Hinv; fields.
    split; fields; rewrite ?length_insert; try done.
    intros k [->|Hk]%flags_insert_true.
    - exists i. lia.
    - by apply A_inv_flags0. }
  wp_steps; fields; try done.
  - (* the slot's timer flag was set: [stoptimer], flag cleared *)
    eapply wp_mono.
    { apply A_slide_inv.
      - apply Hmark. rewrite length_insert. by destruct Hinv.
      - fields. rewrite length_insert. destruct Hinv. int_arith. }
    cbn beta. intros t [[[] s']|f]; [|by intros [_ ->]].
    intros (-> & Hinv' & Hb & Hsame & _). fields.
    split_and!; try done. by destruct Hsame as (_ & _ & -> & _).
  - eapply wp_mono.
    { apply A_slide_inv.
      - apply Hmark. by destruct Hinv.
      - fields. rewrite length_insert. destruct Hinv. int_arith. }
    cbn beta. intros t [[[] s']|f]; [|by intros [_ ->]].
    intros (-> & Hinv' & Hb & Hsame & _). fields.
    split_and!; try done. by destruct Hsame as (_ & _ & -> & _).
Qed.

(** ** The retransmission loop of [A_timerinterrupt] *)

Lemma sent_app who t1 t2 : sent who (t1 ++ t2) = sent who t1 ++ sent who t2.
Proof. unfold sent. apply omap_app. Qed.

Lemma A_resend_post_nil s0 s :
  A_window s = A_window s0 → A_acked s = A_acked s0 →
  A_resend_post s0 s [] [] s.
Proof.
  intros Hw Ha. split; try done.
  - unfold unacked_in. rewrite filter_nil. simpl. lia.
  - unfold unacked_in. rewrite filter_nil. by intros i ?%elem_of_nil.
Qed.

Lemma A_resend_post_cons s0 s s1 s' i l t1 t' :
  A_resend_post s0 s [i] t1 s1 →
  A_resend_post s0 s1 l t' s' →
  A_resend_post s0 s (i :: l) (t1 ++ t') s'.
Proof.
  intros H1 H2.
  assert (unacked_in s0 (i :: l) = unacked_in s0 [i] ++ unacked_in s0 l) as Hsplit.
  { unfold unacked_in. change (i :: l) with ([i] ++ l). apply filter_app. }
  destruct H1, H2. split; try congruence.
  - rewrite Hsplit, length_app. lia.
  - rewrite sent_app, Hsplit, fmap_app. congruence.
  - intros j Hj. rewrite Hsplit in Hj. apply elem_of_app in Hj as [Hj|Hj].
    + destruct (decide (j ∈ unacked_in s0 l)) as [Hin|Hnin]; [by auto|].
      destruct (decide (Exists (λ j', Z.to_nat (Z.rem j' SEQSPACE)
                                      = Z.to_nat (Z.rem j SEQSPACE))
                               (unacked_in s0 l))) as [Hex|Hno].
      * apply Exists_exists in Hex as (j' & Hj' & Heq). rewrite <- Heq. auto.
      * rewrite resend_timer_other1; [auto|].
        intros j' Hj' Heq. apply Hno, Exists_exists. eauto.
    + auto.
  - intros k Hk. rewrite resend_timer_other1, resend_timer_other0; [done| |].
    + intros j Hj. apply Hk. rewrite Hsplit. apply elem_of_app. auto.
    + intros j Hj. apply Hk. rewrite Hsplit. apply elem_of_app. auto.
Qed.

Lemma unacked_in_single_true s i :
  A_acked s !! Z.to_nat (Z.rem i SEQSPACE) = Some true → unacked_in s [i] = [].
Proof.
  intros H. unfold unacked_in. rewrite filter_cons_False, filter_nil; [done|].
  by rewrite H.
Qed.

Lemma unacked_in_single_false s i :
  A_acked s !! Z.to_nat (Z.rem i SEQSPACE) = Some false → unacked_in s [i] = [i].
Proof.
  intros H. unfold unacked_in. by rewrite filter_cons_True, filter_nil.
Qed.

Lemma A_resend_body_spec (s0 s : sender) (i : Z) :
  length (A_window s0) = Z.to_nat WINDOWSIZE →
  length (A_acked s0) = Z.to_nat WINDOWSIZE →
  length (A_timer_running s) = Z.to_nat WINDOWSIZE →
  0 ≤ Z.rem i SEQSPACE < WINDOWSIZE →
  A_window s = A_window s0 → A_acked s = A_acked s0 →
  wp (A_resend_body i) s (λ t r,
    ∃ s1, r = Ok (tt, s1) ∧ A_resend_post s0 s [i] t s1).
Proof.
  intros Hw Ha Htm Hi Hws Has. unfold A_resend_body.
  unfold WINDOWSIZE in *.
  wp_steps; fields;
    try (exfalso; rewrite ?Hws, ?Has, ?Hw, ?Ha, ?Htm in *;
         unfold SEQSPACE in *; lia).
  - (* acknowledged: skipped *)
    subst x. exists s. split; [done|]. rewrite Has in *.
    split; rewrite ?(unacked_in_single_true _ _ H0); try done.
    + simpl. lia.
    + by intros j ?%elem_of_nil.
  - subst x x1. eexists. split; [done|]. rewrite Has, Hws in *.
    split; fields; rewrite ?(unacked_in_single_false _ _ H0), ?length_insert;
      try done.
    + cbn. unfold A_buffered. by rewrite (list_lookup_total_correct _ _ _ H2).
    + intros j ->%list_elem_of_singleton. apply list_lookup_insert_eq. lia.
    + intros k Hk. apply list_lookup_insert_ne. apply Hk. by apply list_elem_of_singleton.
  - subst x x1. eexists. split; [done|]. rewrite Has, Hws in *.
    split; fields; rewrite ?(unacked_in_single_false _ _ H0), ?length_insert;
      try done.
    + cbn. unfold A_buffered. by rewrite (list_lookup_total_correct _ _ _ H2).
    + intros j ->%list_elem_of_singleton. apply list_lookup_insert_eq. lia.
    + intros k Hk. apply list_lookup_insert_ne. apply Hk. by apply list_elem_of_singleton.
Qed.

Lemma A_resend_loop (l : list Z) (s0 s : sender) :
  length (A_window s0) = Z.to_nat WINDOWSIZE →
  length (A_acked s0) = Z.to_nat WINDOWSIZE →
  length (A_timer_running s) = Z.to_nat WINDOWSIZE →
  Forall (λ i, 0 ≤ Z.rem i SEQSPACE < WINDOWSIZE) l →
  A_window s = A_window s0 → A_acked s = A_acked s0 →
  wp (for_each l A_resend_body) s (λ t r,
    ∃ s', r = Ok (tt, s') ∧ A_resend_post s0 s l t s').
Proof.
  intros Hw Ha. revert s.
  induction l as [|i l IH]; intros s Htm Hl Hws Has.
  { wp_steps. exists s. split; [done|]. by apply A_resend_post_nil. }
  apply Forall_cons in Hl as [Hi Hl].
  cbn [for_each]. apply wp_bind.
  eapply wp_mono; [by apply (A_resend_body_spec s0)|]. cbn beta.
  intros t1 r (s1 & -> & H1).
  eapply wp_mono.
  { apply IH; try done.
    - destruct H1. congruence.
    - by destruct H1.
    - by destruct H1. }
  cbn beta. intros t' r' (s' & -> & H2).
  exists s'. split; [done|]. by eapply A_resend_post_cons.
Qed.

Lemma A_window_slots s :
  A_inv s →
  Forall (λ i, 0 ≤ Z.rem i SEQSPACE < WINDOWSIZE)
         (seqZ (A_base s) (A_nextseq s - A_base s)).
Proof.
  intros []. apply Forall_seqZ. intros i Hi.
  unfold SEQSPACE, WINDOWSIZE in *. lia.
Qed.

Lemma A_timerinterrupt_spec s :
  A_inv s →
  wp Sr.A_timerinterrupt s (λ t r,
    ∃ s', r = Ok (tt, s') ∧
          A_resend_post s s (seqZ (A_base s) (A_nextseq s - A_base s)) t s').
Proof.
  intros Hinv. unfold Sr.A_timerinterrupt.
  wp_step; cbn beta iota. wp_step; cbn beta iota.
  change (wp (for_each (seqZ (A_base s) (A_nextseq s - A_base s)) A_resend_body) s
    (λ t r, ∃ s', r = Ok (tt, s') ∧
       A_resend_post s s (seqZ (A_base s) (A_nextseq s - A_base s)) ([] ++ t) s')).
  apply A_resend_loop; try done; try by destruct Hinv.
  by apply A_window_slots.
Qed.

Lemma A_timerinterrupt_inv s :
  A_inv s →
  wp Sr.A_timerinterrupt s (λ t r,
    match r with
    | Ok (_, s') =>
        A_inv s' ∧ A_base s' = A_base s ∧ A_nextseq s' = A_nextseq s
    | Fault f => f = OutOfBounds
    end).
Proof.
  intros Hinv. eapply wp_mono; [by apply A_timerinterrupt_spec|].
  cbn beta. intros t r (s' & -> & []). split; [|done].
  destruct Hinv. split; try congruence.
  rewrite resend_acked0, resend_base0, resend_nextseq0. done.
Qed.

Lemma A_step_inv c s :
  A_inv s →
  wp (Sr.A_step c) s (λ t r,
    match r with
    | Ok (_, s') =>
        A_inv s' ∧ A_base s ≤ A_base s' ∧ A_nextseq s ≤ A_nextseq s'
    | Fault f => f = OutOfBounds
    end).
Proof.
  intros Hinv. destruct c as [message|packet|]; simpl.
  - eapply wp_mono; [by apply A_output_inv|].
    intros t [[[] s']|f]; [|done]. intros (? & ? & ?). split_and!; [done|lia|done].
  - eapply wp_mono; [by apply A_input_inv|].
    intros t [[[] s']|f]; [|done]. intros (? & ? & ?). split_and!; [done|done|lia].
  - eapply wp_mono; [by apply A_timerinterrupt_inv|].
    intros t [[[] s']|f]; [|done]. intros (? & ? & ?). split_and!; [done|lia|lia].
Qed.

Lemma A_run_inv cs s :
  A_inv s →
  wp (run Sr.A_step cs) s (λ t r,
    match r with
    | Ok (_, s') => A_inv s'
    | Fault f => f = OutOfBounds
    end).
Proof.
  revert s. induction cs as [|c cs IH]; intros s Hinv; cbn [run].
  { by wp_steps. }
  apply wp_bind. eapply wp_mono; [by apply A_step_inv|]. cbn beta.
  intros t [[[] s']|f]; [|done]. intros (Hinv' & _).
  eapply wp_mono; [by apply IH|]. cbn beta. by intros t' [[[] s'']|f].
Qed.

Lemma exec_bind_Ok {St T U} (m : M St T) (k : T → M St U) s t1 x s1 :
  m s = (t1, Ok (x, s1)) →
  exec (m ≫= k) s = (t1 ++ (exec (k x) s1).1, (exec (k x) s1).2).
Proof.
  intros Hm. unfold exec, mbind, M_bind, bind. rewrite Hm.
  by destruct (k x s1) as [t2 [[y s2]|f]].
Qed.

Lemma wp_exec_run {St T} (m : M St T) s (Q : list event → res (T * St) → Prop) :
  wp m s Q →
  ∀ t r, exec m s = (t, r) →
    match r with
    | Ok s' => ∃ x, Q t (Ok (x, s'))
    | Fault f => Q t (Fault f)
    end.
Proof.
  unfold wp, exec. destruct (m s) as [t' [[x s']|f]]; simpl.
  - intros HQ t r [= <- <-]. by exists x.
  - by intros HQ t r [= <- <-].
Qed.

Lemma A_reachable_inv s : A_reachable s → A_inv s.
Proof.
  intros (cs & t & Hrun).
  destruct A_inv_start as (s0 & Hinit & Hinv0 & _).
  rewrite (exec_bind_Ok _ _ _ _ _ _ Hinit) in Hrun.
  destruct (exec (run Sr.A_step cs) s0) as [t' r'] eqn:Hcs.
  pose proof (wp_exec_run _ _ _ (A_run_inv cs s0 Hinv0) _ _ Hcs) as Hpost.
  simpl in Hrun. injection Hrun as _ ->.
  by destruct Hpost as [[] ?].
Qed.

(** As long as no call has left the arrays, the sender satisfies
    [0 <= A_nextseq - A_base <= WINDOWSIZE] and a call that returns does
    not decrease [A_base] or [A_nextseq]. In such a run [A_nextseq] is at
    most [WINDOWSIZE] (see [A_inv_slots]): the run that accepts a seventh
    message is not among them. *)
Lemma A_window_bounds_inside_arrays (cs : list A_call) (t : list event) (s : sender) :
  exec (Sr.A_init;; run Sr.A_step cs) sender_statics = (t, Ok s) →
  0 ≤ A_nextseq s - A_base s ≤ WINDOWSIZE ∧
  ∀ c t' s', exec (Sr.A_step c) s = (t', Ok s') →
    A_base s ≤ A_base s' ∧ A_nextseq s ≤ A_nextseq s'.
Proof.
  intros Hrun.
  assert (A_inv s) as Hinv by (apply A_reachable_inv; exists cs, t; exact Hrun).
  split; [destruct Hinv; lia|].
  intros c t' s' Hstep.
  refine (wp_exec _ _ _ _
    (λ _ r, match r with
            | Ok s' => A_base s ≤ A_base s' ∧ A_nextseq s ≤ A_nextseq s'
            | Fault _ => True
            end) Hstep _).
  eapply wp_mono; [by apply A_step_inv|]. cbn beta.
  intros t1 [[[] s1]|f]; [|done]. by intros (_ & ? & ?).
Qed.

Lemma elem_of_A_unacked s i :
  A_inv s →
  i ∈ A_unacked s ↔
  A_base s ≤ i < A_nextseq s ∧
  A_acked s !! Z.to_nat (i mod SEQSPACE) = Some false.
Proof.
  intros Hinv. unfold A_unacked, unacked_in.
  rewrite list_elem_of_filter, elem_of_seqZ.
  destruct Hinv. unfold SEQSPACE, WINDOWSIZE in *.
  split; intros [H1 H2].
  - split; [lia|]. by rewrite Z.rem_mod_nonneg in H1 by lia.
  - split; [|lia]. by rewrite Z.rem_mod_nonneg by lia.
Qed.

(** C6. [A_timerinterrupt] hands to the channel, unchanged and in order,
    exactly the buffered units of the logical sequence numbers in
    [[A_base, A_nextseq)] whose slot is not marked acknowledged, sets the
    timer flag of each of these slots and of no other, and leaves
    [A_base], [A_nextseq], the buffered units and the acknowledged flags
    as they were. *)
Theorem C6_timerinterrupt_resends_unacked (s : sender) :
  A_reachable s →
  ∃ t s', exec Sr.A_timerinterrupt s = (t, Ok s') ∧
    sent A t = A_buffered s <$> A_unacked s ∧
    (∀ i, i ∈ A_unacked s ↔
          A_base s ≤ i < A_nextseq s ∧
          A_acked s !! Z.to_nat (i mod SEQSPACE) = Some false) ∧
    (∀ i, A_base s ≤ i < A_nextseq s →
          A_window s !! Z.to_nat (i mod SEQSPACE) = Some (A_buffered s i)) ∧
    (∀ i, i ∈ A_unacked s →
          A_timer_running s' !! Z.to_nat (i mod SEQSPACE) = Some true) ∧
    (∀ k : nat, (∀ i, i ∈ A_unacked s → Z.to_nat (i mod SEQSPACE) ≠ k) →
          A_timer_running s' !! k = A_timer_running s !! k) ∧
    A_base s' = A_base s ∧ A_nextseq s' = A_nextseq s ∧
    A_window s' = A_window s ∧ A_acked s' = A_acked s ∧
    packets_resent s' = packets_resent s + Z.of_nat (length (A_unacked s)).
Proof.
  intros Hinv%A_reachable_inv.
  pose proof (A_timerinterrupt_spec s Hinv) as Hwp. unfold wp in Hwp.
  destruct (Sr.A_timerinterrupt s) as [t r] eqn:Hrun.
  destruct Hwp as (s' & Hr & Hpost). simpl in Hr. subst r.
  exists t, s'. unfold exec. rewrite Hrun. split; [done|].
  fold (unacked_in s (seqZ (A_base s) (A_nextseq s - A_base s))) in *.
  assert (∀ i, i ∈ A_unacked s → i mod SEQSPACE = Z.rem i SEQSPACE) as Hmod.
  { intros i [Hi _]%elem_of_A_unacked; [|done].
    destruct Hinv. rewrite Z.rem_mod_nonneg; unfold SEQSPACE; lia. }
  destruct Hpost. split_and!; try done.
  - intros i. by apply elem_of_A_unacked.
  - intros i Hi. unfold A_buffered.
    destruct Hinv. unfold SEQSPACE, WINDOWSIZE in *.
    rewrite Z.rem_mod_nonneg by lia.
    apply list_lookup_lookup_total_lt. lia.
  - intros i Hi. rewrite Hmod by done. by apply resend_timer_set0.
  - intros k Hk. apply resend_timer_other0. intros i Hi.
    rewrite <- Hmod by done. by apply Hk.
Qed.

Lemma A_reachable_after_abc : A_reachable (A_after calls_abc).
Proof. exists calls_abc, (A_trace calls_abc). vm_compute. reflexivity. Qed.

Lemma C6_timerinterrupt_resends_unacked_witness :
  ∃ t s', exec Sr.A_timerinterrupt (A_after calls_abc) = (t, Ok s') ∧
    sent A t = [data_pkt 0 "a"; data_pkt 2 "c"] ∧
    A_base s' = 0 ∧ A_nextseq s' = 3 ∧ A_acked s' = A_acked (A_after calls_abc).
Proof.
  destruct (C6_timerinterrupt_resends_unacked (A_after calls_abc))
    as (t & s' & Hrun & Hsent & _ & _ & _ & _ & Hb & Hn & _ & Ha & _).
  { exists calls_abc, (A_trace calls_abc). vm_compute. reflexivity. }
  exists t, s'. split_and!; try done.
Defined.


(** ** The receiver of src/sr.c *)

Lemma delivered_app t1 t2 : delivered (t1 ++ t2) = delivered t1 ++ delivered t2.
Proof. unfold delivered. apply omap_app. Qed.

Lemma delivered_tolayer5 ds : delivered (tolayer5 B <$> ds) = ds.
Proof. induction ds as [|d ds IH]; [done|]. cbn. by f_equal. Qed.

Lemma in_order_from_nil arrived b : in_order_from arrived b [].
Proof. split; [done|constructor]. Qed.

Lemma in_order_from_app arrived b qs1 qs2 :
  in_order_from arrived b qs1 →
  in_order_from arrived (b + Z.of_nat (length qs1)) qs2 →
  in_order_from arrived b (qs1 ++ qs2).
Proof.
  intros [Hs1 Hf1] [Hs2 Hf2]. split; [|by apply Forall_app].
  rewrite fmap_app, length_app, Nat2Z.inj_add, seqZ_app, fmap_app by lia.
  by rewrite Hs1, Hs2.
Qed.

Lemma in_order_from_mono arrived arrived' b qs :
  arrived ⊆ arrived' → in_order_from arrived b qs → in_order_from arrived' b qs.
Proof.
  intros Hsub [Hs Hf]. split; [done|].
  eapply Forall_impl; [done|]. intros q [? ?]. split; [|done]. by apply Hsub.
Qed.

Ltac list_sub :=
  intros ?x; cbn [app]; rewrite ?elem_of_cons, ?elem_of_app, ?elem_of_cons; tauto.

Lemma B_inv_mono arrived arrived' s :
  arrived ⊆ arrived' → B_inv arrived s → B_inv arrived' s.
Proof.
  intros Hsub []. split; try done.
  intros i Hi. destruct (B_inv_slots0 i Hi) as (p & ? & ? & ? & ?).
  exists p. split_and!; try done. by apply Hsub.
Qed.

Lemma B_deliver_spec arrived fuel s :
  B_inv arrived s →
  WINDOWSIZE - B_base s < Z.of_nat fuel →
  wp (Sr.B_deliver fuel) s (λ t r,
    ∃ qs, t = tolayer5 B <$> (payload <$> qs) ∧
          in_order_from arrived (B_base s) qs ∧
          match r with
          | Ok (_, s') =>
              B_inv arrived s' ∧ B_idle s' ∧
              B_base s' = B_base s + Z.of_nat (length qs) ∧
              B_buffer s' = B_buffer s ∧
              (B_idle s → s' = s)
          | Fault f => f = OutOfBounds
          end).
Proof.
  revert s. induction fuel as [|fuel IH]; intros s Hinv Hfuel.
  { destruct Hinv. lia. }
  cbn [Sr.B_deliver]. wp_steps; fields.
  - (* the slot of [B_base] is marked received: deliver it *)
    subst x.
    assert (B_base s < WINDOWSIZE) as Hlt.
    { destruct Hinv. unfold SEQSPACE, WINDOWSIZE in *. lia. }
    destruct (B_inv_slots _ _ Hinv _ H0) as (p & Hp & Hin & Hok & Hseq).
    assert (x0 = p) as -> by congruence.
    eapply wp_mono.
    { apply IH.
      - destruct Hinv. split; fields; rewrite ?length_insert; try done.
        + int_arith.
        + intros i [Hne Hi]%flags_insert_false. by apply B_inv_slots0.
      - fields. destruct Hinv. int_arith. }
    cbn beta. intros t r (qs & -> & Hord & Hr). fields.
    assert (int_add (B_base s) 1 = B_base s + 1) as Hnext.
    { destruct Hinv. int_arith. }
    rewrite Hnext in *.
    exists (p :: qs). split; [done|]. split.
    { change (p :: qs) with ([p] ++ qs). apply in_order_from_app; [|done].
      split; [|by repeat constructor].
      cbn. rewrite seqZ_cons, seqZ_nil by lia. cbn. f_equal.
      destruct Hinv. unfold SEQSPACE, WINDOWSIZE in *.
      rewrite Hseq. lia. }
    destruct r as [[[] s']|f]; [|done].
    destruct Hr as (Hinv' & Hidle' & Hb' & Hbuf' & _).
    split_and!; try done.
    + rewrite Hb'. cbn [length]. lia.
    + intros Hidle. unfold B_idle in Hidle. congruence.
  - exists []. split; [done|]. split; [apply in_order_from_nil|done].
  - exists []. split; [done|]. split; [apply in_order_from_nil|done].
  - subst x. exists []. split; [done|]. split; [apply in_order_from_nil|].
    split_and!; try done. simpl. lia.
  - exists []. split; [done|]. split; [apply in_order_from_nil|done].
Qed.

Lemma B_input_spec arrived packet s :
  B_inv arrived s →
  wp (Sr.B_input packet) s (λ t r,
    ∃ qs, delivered t = payload <$> qs ∧
          in_order_from (packet :: arrived) (B_base s) qs ∧
          match r with
          | Ok (_, s') =>
              B_inv (packet :: arrived) s' ∧ B_idle s' ∧
              B_base s' = B_base s + Z.of_nat (length qs)
          | Fault f => f = OutOfBounds
          end).
Proof.
  intros Hinv. unfold Sr.B_input.
  assert (B_inv (packet :: arrived) s) as Hinv'.
  { eapply B_inv_mono; [|done]. list_sub. }
  (* the drain, from any state that the first half can leave behind *)
  assert (∀ fuel t1 s1, delivered t1 = [] → B_inv (packet :: arrived) s1 →
            B_base s1 = B_base s → (6 < fuel)%nat →
            wp (Sr.B_deliver fuel) s1 (λ t' r',
              ∃ qs, delivered (t1 ++ t') = payload <$> qs ∧
                in_order_from (packet :: arrived) (B_base s) qs ∧
                match r' with
                | Ok (_, s') =>
                    B_inv (packet :: arrived) s' ∧ B_idle s' ∧
                    B_base s' = B_base s + Z.of_nat (length qs)
                | Fault f => f = OutOfBounds
                end)) as Hdrain.
  { intros fuel t1 s1 Ht1 Hinv1 Hb1 Hfuel.
    eapply wp_mono.
    { apply (B_deliver_spec (packet :: arrived)); [done|].
      destruct Hinv1. unfold WINDOWSIZE in *. lia. }
    cbn beta. intros t' r' (qs & -> & Hord & Hr).
    exists qs. rewrite delivered_app, Ht1, delivered_tolayer5.
    rewrite Hb1 in *. split; [done|]. split; [done|].
    destruct r' as [[[] s']|f]; [|done]. by destruct Hr as (? & ? & ? & _). }
  wp_step; cbn beta iota. wp_step; cbn beta iota. apply wp_bind.
  destruct (negb (Sr.IsCorrupted packet) && _) eqn:Hcond.
  - apply andb_true_iff in Hcond as [Hok%negb_true_iff _].
    assert (length (B_received s) = 6%nat) as Hlen by (by destruct Hinv).
    wp_steps; fields; rewrite ?length_insert.
    + (* duplicate of a buffered unit *)
      apply Hdrain; [done|done|done|lia].
    + (* newly buffered *)
      apply Hdrain; [done| |done|lia].
      destruct Hinv'. split; fields; rewrite ?length_insert; try done.
      intros i [->|Hi]%flags_insert_true.
      * exists packet. split_and!; [|by apply elem_of_cons; left|done|lia].
        apply list_lookup_insert_eq. lia.
      * destruct (B_inv_slots0 i Hi) as (p & Hp & ? & ? & Hseq).
        exists p. split_and!; try done.
        rewrite list_lookup_insert_ne; [done|]. intros Heq.
        rewrite <- Heq in Hi. congruence.
    + exists []. split; [done|]. split; [apply in_order_from_nil|done].
    + exists []. split; [done|]. split; [apply in_order_from_nil|done].
    + exists []. split; [done|]. split; [apply in_order_from_nil|done].
  - assert (length (B_received s) = 6%nat) as Hlen by (by destruct Hinv).
    wp_steps. apply Hdrain; [done|done|done|lia].
Qed.

Lemma B_run_spec ps arrived s :
  B_inv arrived s →
  wp (run Sr.B_input ps) s (λ t r,
    ∃ qs, delivered t = payload <$> qs ∧
          in_order_from (ps ++ arrived) (B_base s) qs ∧
          match r with
          | Ok (_, s') =>
              B_inv (ps ++ arrived) s' ∧ (B_idle s → B_idle s') ∧
              B_base s' = B_base s + Z.of_nat (length qs)
          | Fault f => f = OutOfBounds
          end).
Proof.
  revert arrived s. induction ps as [|p ps IH]; intros arrived s Hinv; cbn [run].
  { wp_steps. exists []. split; [done|]. split; [apply in_order_from_nil|].
    split_and!; try done. simpl. lia. }
  apply wp_bind. eapply wp_mono; [by apply B_input_spec|]. cbn beta.
  intros t1 r1 (qs1 & Hd1 & Hord1 & Hr1).
  assert (p :: arrived ⊆ (p :: ps) ++ arrived) as Hsub1 by list_sub.
  assert (ps ++ p :: arrived ⊆ (p :: ps) ++ arrived) as Hsub2 by list_sub.
  destruct r1 as [[[] s1]|f].
  - destruct Hr1 as (Hinv1 & Hidle1 & Hb1).
    eapply wp_mono; [by apply IH|]. cbn beta.
    intros t2 r2 (qs2 & Hd2 & Hord2 & Hr2).
    exists (qs1 ++ qs2). rewrite delivered_app, Hd1, Hd2, fmap_app.
    split; [done|]. split.
    { apply in_order_from_app.
      - eapply in_order_from_mono; [exact Hsub1|done].
      - rewrite <- Hb1. eapply in_order_from_mono; [exact Hsub2|done]. }
    destruct r2 as [[[] s2]|f]; [|done].
    destruct Hr2 as (Hinv2 & Hidle2 & Hb2). split_and!.
    + eapply B_inv_mono; [exact Hsub2|done].
    + auto.
    + rewrite Hb2, Hb1, length_app. lia.
  - exists qs1. split; [done|]. split; [|done].
    eapply in_order_from_mono; [exact Hsub1|done].
Qed.


Lemma B_inv_start :
  ∃ s, Sr.B_init receiver_statics = ([], Ok (tt, s)) ∧ B_inv [] s ∧ B_idle s
       ∧ B_base s = 0.
Proof.
  eexists. split; [vm_compute; reflexivity|].
  split_and!; try done. split; simpl; try done.
  intros i Hi. exfalso.
  do 6 (destruct i as [|i]; [done|]). done.
Qed.

Lemma B_run_from_start ps :
  ∃ qs, delivered (B_trace ps) = payload <$> qs ∧
        in_order_from ps 0 qs ∧
        match B_outcome ps with
        | Ok s => B_inv ps s ∧ B_idle s ∧ B_base s = Z.of_nat (length qs)
        | Fault f => f = OutOfBounds
        end.
Proof.
  destruct B_inv_start as (s0 & Hinit & Hinv0 & Hidle0 & Hb0).
  unfold B_trace, B_outcome.
  rewrite (exec_bind_Ok _ _ _ _ _ _ Hinit).
  destruct (exec (run Sr.B_input ps) s0) as [t r] eqn:Hps.
  pose proof (wp_exec_run _ _ _ (B_run_spec ps [] s0 Hinv0) _ _ Hps) as Hpost.
  cbn [fst snd app]. rewrite app_nil_r, Hb0 in Hpost.
  destruct r as [s|f].
  - destruct Hpost as ([] & qs & Hd & Hord & Hinv & Hidle & Hb).
    exists qs. split_and!; auto.
  - destruct Hpost as (qs & Hd & Hord & Hf). by exists qs.
Qed.

(** Up to the first access outside the arrays: the payloads handed to
    [tolayer5] are, in this order, those of uncorrupted arrived units
    carrying the sequence numbers of the logical positions 0, 1, 2, ...
    (modulo [SEQSPACE]), and [B_base] is the number of deliveries made.
    Nothing is said here of a run after it has left the arrays. *)
Lemma B_delivers_in_order_inside_arrays (ps : list pkt) :
  ∃ qs : list pkt,
    delivered (B_trace ps) = payload <$> qs ∧
    seqnum <$> qs = (λ i, i mod SEQSPACE) <$> seqZ 0 (Z.of_nat (length qs)) ∧
    Forall (λ q, q ∈ ps ∧ Sr.IsCorrupted q = false) qs ∧
    match B_outcome ps with
    | Ok s => B_base s = Z.of_nat (length qs)
    | Fault f => f = OutOfBounds
    end.
Proof.
  destruct (B_run_from_start ps) as (qs & Hd & [Hs Hf] & Hr).
  exists qs. split_and!; try done.
  destruct (B_outcome ps); [|done]. by destruct Hr as (_ & _ & ?).
Qed.

Lemma B_reachable_inv s : B_reachable s → ∃ ps, B_inv ps s ∧ B_idle s.
Proof.
  intros (ps & t & Hrun). exists ps.
  destruct (B_run_from_start ps) as (qs & _ & _ & Hr).
  unfold B_outcome in Hr. rewrite Hrun in Hr. simpl in Hr.
  by destruct Hr as (? & ? & _).
Qed.

Lemma B_deliver_idle fuel s :
  B_idle s → 0 ≤ B_base s → Sr.B_deliver (S fuel) s = ([], Ok (tt, s)).
Proof.
  intros Hidle Hb.
  assert (wp (Sr.B_deliver (S fuel)) s (λ t r, t = [] ∧ r = Ok (tt, s))) as Hwp.
  { unfold B_idle in Hidle. cbn [Sr.B_deliver].
    wp_steps; try done; try congruence.
    apply lookup_lt_Some in Hidle.
    assert (0 ≤ Z.rem (B_base s) SEQSPACE) by (apply Z.rem_nonneg; done).
    lia. }
  revert Hwp. unfold wp. destruct (Sr.B_deliver (S fuel) s) as [t r].
  cbn [fst snd]. by intros [-> ->].
Qed.

Lemma existsb_window_false (x b n : Z) :
  (¬ ∃ i, b ≤ i < b + n ∧ x = Z.rem i SEQSPACE) →
  existsb (λ i, bool_decide (x = Z.rem i SEQSPACE)) (seqZ b n) = false.
Proof.
  intros Hno. apply not_true_is_false. intros (i & Hin & Hx)%existsb_exists.
  apply Hno. exists i. apply list_elem_of_In, elem_of_seqZ in Hin.
  by apply bool_decide_eq_true in Hx.
Qed.

(** C8. From a state the emulator can bring about, [B_input] on a unit
    that is corrupted, or whose sequence number is outside
    [[B_base, B_base + WINDOWSIZE)] modulo [SEQSPACE], leaves the receiver
    as it was (nothing buffered, no flag set, nothing delivered) and sends
    exactly one acknowledgment, whose [acknum] is [(B_base - 1)] modulo
    [SEQSPACE], that is [SEQSPACE - 1] when [B_base = 0]. *)
Theorem C8_reject_reacknowledges (s : receiver) (packet : pkt) :
  B_reachable s →
  Sr.IsCorrupted packet = true ∨
    (¬ ∃ i, B_base s ≤ i < B_base s + WINDOWSIZE ∧
            seqnum packet = i mod SEQSPACE) →
  ∃ ack, exec (Sr.B_input packet) s = ([tolayer3 B ack], Ok s) ∧
         acknum ack = (B_base s - 1) mod SEQSPACE ∧
         (B_base s = 0 → acknum ack = SEQSPACE - 1).
Proof.
  intros (ps & Hinv & Hidle)%B_reachable_inv Hrej.
  assert (0 ≤ B_base s < WINDOWSIZE) as Hb.
  { apply lookup_lt_Some in Hidle. destruct Hinv.
    unfold SEQSPACE, WINDOWSIZE in *. lia. }
  unfold exec, Sr.B_input.
  unfold mbind at 1, M_bind at 1, bind at 1, get at 1.
  assert (negb (Sr.IsCorrupted packet) &&
          existsb (λ i, bool_decide (seqnum packet = Z.rem i SEQSPACE))
            (seqZ (B_base s) (int_add (B_base s) WINDOWSIZE - B_base s))
          = false) as ->.
  { destruct Hrej as [->|Hout]; [done|]. apply andb_false_iff. right.
    apply existsb_window_false. intros (i & Hi & Hseq). apply Hout.
    exists i. revert Hi Hseq. unfold WINDOWSIZE, SEQSPACE in *.
    rewrite int_add_small by (unfold in_int, INT_MIN, INT_MAX; lia).
    intros Hi ->. split; [lia|]. rewrite Z.rem_mod_nonneg; lia. }
  unfold mbind, M_bind, bind, emit, get.
  rewrite B_deliver_idle by (done || lia).
  eexists. split; [reflexivity|]. cbn [acknum set_checksum set_acknum].
  unfold WINDOWSIZE, SEQSPACE in *.
  case_bool_decide as Hz.
  - rewrite Hz. split; [|done]. by vm_compute.
  - split; [|done].
    rewrite int_add_small by (unfold in_int, INT_MIN, INT_MAX; lia).
    rewrite Z.rem_mod_nonneg by lia. done.
Qed.

Lemma C8_reject_reacknowledges_witness :
  ∃ ack, exec (Sr.B_input (data_pkt 0 "a")) (B_after [data_pkt 0 "a"])
           = ([tolayer3 B ack], Ok (B_after [data_pkt 0 "a"])) ∧
         acknum ack = 0.
Proof.
  destruct (C8_reject_reacknowledges (B_after [data_pkt 0 "a"]) (data_pkt 0 "a"))
    as (ack & Hrun & Hack & _).
  - exists [data_pkt 0 "a"], (B_trace [data_pkt 0 "a"]). vm_compute. reflexivity.
  - right. intros (i & Hi & Hseq).
    change (B_base (B_after [data_pkt 0 "a"])) with 1 in Hi.
    change (seqnum (data_pkt 0 "a")) with 0 in Hseq.
    unfold WINDOWSIZE, SEQSPACE in *. lia.
  - exists ack. split; [done|]. rewrite Hack. reflexivity.
Defined.

Lemma C7_checksum_formula_witness :
  Sr.ComputeChecksum (data_pkt 2 "a") = 2 + -1 + 20 * 97 ∧
  Sr.IsCorrupted (data_pkt 2 "a") = false ∧
  Sr.IsCorrupted (set_acknum 0 (data_pkt 2 "a")) = true.
Proof.
  destruct (C7_checksum_formula (data_pkt 2 "a")) as (_ & Hexact & _ & _ & _).
  destruct (C7_checksum_formula (set_acknum 0 (data_pkt 2 "a")))
    as (_ & _ & _ & _ & Hcorr).
  split_and!.
  - rewrite Hexact; [reflexivity|]. vm_compute. split; discriminate.
  - reflexivity.
  - apply Hcorr. vm_compute. discriminate.
Defined.


(** ** Where src/sr.c leaves the arrays *)

(** C2. src/sr.c addresses the [WINDOWSIZE] slots by [seq % SEQSPACE]:
    with [A_base = 1] and [A_nextseq = 6], reached by six messages and the
    acknowledgment of the first, [A_output] writes [A_window[6]]; and after
    the units 0 .. 5 have arrived in order, [B_input] reads
    [B_received[6]]. Both accesses are outside the six-slot arrays. *)
Theorem C2_slot_index_out_of_range :
  A_reachable (A_after calls_six_ack0) ∧
  A_base (A_after calls_six_ack0) = 1 ∧
  A_nextseq (A_after calls_six_ack0) = 6 ∧
  Z.of_nat (length (A_window (A_after calls_six_ack0))) = WINDOWSIZE ∧
  Z.rem (A_nextseq (A_after calls_six_ack0)) SEQSPACE = WINDOWSIZE ∧
  (exec (Sr.A_output (msg_of "g")) (A_after calls_six_ack0)).2
    = Fault OutOfBounds ∧
  B_outcome units_six = Fault OutOfBounds.
Proof.
  split; [exists calls_six_ack0, (A_trace calls_six_ack0); vm_compute; reflexivity|].
  split_and!; vm_compute; reflexivity.
Qed.

(** C1, at the inputs where it fails. No run of the receiver of src/sr.c
    delivers a sixth payload and stays inside the arrays: a run either
    ends with [B_base <= 5], having made [B_base] deliveries, or has read
    or written an array outside its six slots. On a channel that neither
    loses, reorders nor corrupts, the units 0 .. 6 arrive in order: the
    payloads of 0 .. 5 are delivered, then the delivery loop reads
    [B_received[6]]; the payload of unit 6 is not delivered. When unit 6
    arrives right after unit 0, it is in the window and is stored in
    [B_buffer[6]], outside the array. Same defect as C2. *)
Theorem C1_sixth_delivery_leaves_arrays :
  (∀ ps, match B_outcome ps with
         | Ok s => B_base s ≤ 5 ∧
                   Z.of_nat (length (delivered (B_trace ps))) = B_base s
         | Fault f => f = OutOfBounds
         end) ∧
  Forall (λ p, Sr.IsCorrupted p = false) (units_six ++ [data_pkt 6 "g"]) ∧
  seqnum <$> (units_six ++ [data_pkt 6 "g"]) = [0; 1; 2; 3; 4; 5; 6] ∧
  delivered (B_trace (units_six ++ [data_pkt 6 "g"])) = payload <$> units_six ∧
  B_outcome (units_six ++ [data_pkt 6 "g"]) = Fault OutOfBounds ∧
  delivered (B_trace [data_pkt 0 "a"; data_pkt 6 "g"]) = [mk_payload "a"] ∧
  B_outcome [data_pkt 0 "a"; data_pkt 6 "g"] = Fault OutOfBounds.
Proof.
  split.
  { intros ps. destruct (B_run_from_start ps) as (qs & Hd & _ & Hr).
    destruct (B_outcome ps) as [s|f]; [|done].
    destruct Hr as (Hinv & Hidle & Hb).
    split.
    - apply lookup_lt_Some in Hidle. destruct Hinv.
      unfold SEQSPACE, WINDOWSIZE in *. lia.
    - by rewrite Hd, length_fmap. }
  split; [repeat constructor|].
  split_and!; vm_compute; reflexivity.
Qed.

(** C3, at the inputs where it fails. No run of the sender of src/sr.c
    brings [A_nextseq] past [WINDOWSIZE] and stays inside the arrays: a
    run either ends with [A_nextseq <= 6] or has read or written an array
    outside its six slots. After six messages and the acknowledgment of the
    first, [A_nextseq - A_base = 5]: the window has room, the seventh
    message passes the check of [A_output] and the unit is stored in
    [A_window[6]], outside the array, before anything is sent; and when the
    six acknowledgments arrive in order, the slide loop of [A_input] reads
    [A_acked[6]]. In both runs the sender is left with no defined state, of
    which the bounds could hold. Same defect as C2. *)
Theorem C3_seventh_message_leaves_arrays :
  (∀ cs, match A_outcome cs with
         | Ok s => A_nextseq s ≤ WINDOWSIZE
         | Fault f => f = OutOfBounds
         end) ∧
  A_outcome calls_six_ack0 = Ok (A_after calls_six_ack0) ∧
  A_nextseq (A_after calls_six_ack0) - A_base (A_after calls_six_ack0) = 5 ∧
  A_outcome (calls_six_ack0 ++ [Call_A_output (msg_of "g")])
    = Fault OutOfBounds ∧
  A_trace (calls_six_ack0 ++ [Call_A_output (msg_of "g")])
    = A_trace calls_six_ack0 ∧
  A_outcome (calls_six_ack04 ++ [Call_A_input (ack_pkt 5)])
    = Fault OutOfBounds.
Proof.
  split.
  { intros cs. destruct A_inv_start as (s0 & Hinit & Hinv0 & _).
    unfold A_outcome. rewrite (exec_bind_Ok _ _ _ _ _ _ Hinit). cbn [snd].
    pose proof (A_run_inv cs s0 Hinv0) as Hwp. revert Hwp.
    unfold wp, exec. destruct (run Sr.A_step cs s0) as [t [[[] s]|f]];
      cbn [fst snd]; [|done].
    intros []. done. }
  split_and!; vm_compute; reflexivity.
Qed.

(** C4, at the input where it fails. Six messages are outstanding and the
    acknowledgments 0 .. 4 have arrived; the acknowledgment of 5 marks slot
    5, stops the timer, slides [A_base] to 6 and then reads [A_acked[6]]
    to look for the end of the run: outside the array. Same defect as C2. *)
Theorem C4_ack_slide_reads_past_array :
  A_reachable (A_after calls_six_ack04) ∧
  A_base (A_after calls_six_ack04) = 5 ∧
  A_nextseq (A_after calls_six_ack04) = 6 ∧
  Sr.IsCorrupted (ack_pkt 5) = false ∧
  exec (Sr.A_input (ack_pkt 5)) (A_after calls_six_ack04)
    = ([stoptimer A], Fault OutOfBounds).
Proof.
  split; [exists calls_six_ack04, (A_trace calls_six_ack04); vm_compute; reflexivity|].
  split_and!; vm_compute; reflexivity.
Qed.

(** Scenario B of C4 holds: the acknowledgment of 1 arrives first, slot 1
    is marked and [A_base] stays 0; the acknowledgment of 0 then moves
    [A_base] to 2 and clears both flags. *)
Example A_input_scenario_B :
  A_base (A_after calls_two_ack1) = 0 ∧
  A_acked (A_after calls_two_ack1) !! 1%nat = Some true ∧
  ∃ s', exec (Sr.A_input (ack_pkt 0)) (A_after calls_two_ack1) = ([stoptimer A], Ok s') ∧
        A_base s' = 2 ∧ A_acked s' = replicate 6 false.
Proof.
  split_and!; try (vm_compute; reflexivity).
  eexists. split_and!; vm_compute; reflexivity.
Qed.

(** C5, at the input where it fails. With [A_base = 1] and
    [A_nextseq = 6] the window is not full, [seq] is 6 and the store
    [A_window[6] = p] is outside the array: nothing is stored or
    transmitted in a defined way. Same defect as C2. *)
Theorem C5_output_stores_past_array :
  A_reachable (A_after calls_six_ack0) ∧
  A_nextseq (A_after calls_six_ack0)
    < A_base (A_after calls_six_ack0) + WINDOWSIZE ∧
  A_nextseq (A_after calls_six_ack0) mod SEQSPACE = 6 ∧
  exec (Sr.A_output (msg_of "g")) (A_after calls_six_ack0)
    = ([], Fault OutOfBounds).
Proof.
  split; [exists calls_six_ack0, (A_trace calls_six_ack0); vm_compute; reflexivity|].
  split_and!; vm_compute; reflexivity.
Qed.

(** C9, at the input where it fails. Two messages in a row: the second
    [A_output] finds [A_timer_running[1]] clear and calls [starttimer]
    while the alarm armed by the first is still pending. *)
Theorem C9_second_output_starts_running_timer :
  A_trace [Call_A_output (msg_of "a"); Call_A_output (msg_of "b")]
    = [tolayer3 A (data_pkt 0 "a"); starttimer A RTT;
       tolayer3 A (data_pkt 1 "b"); starttimer A RTT] ∧
  double_start A false
    (A_trace [Call_A_output (msg_of "a"); Call_A_output (msg_of "b")]) = true.
Proof. split; vm_compute; reflexivity. Qed.

(** C10, at the input where it fails. Unit 0 has been delivered, so
    [B_base = 1] and sequence number 6 is in the window; the uncorrupted
    unit 6 makes [B_input] read [B_received[6]], outside the array, before
    any acknowledgment is sent. Same defect as C2. *)
Theorem C10_ack_not_sent_before_fault :
  B_reachable (B_after [data_pkt 0 "a"]) ∧
  B_base (B_after [data_pkt 0 "a"]) = 1 ∧
  Sr.IsCorrupted (data_pkt 6 "g") = false ∧
  exec (Sr.B_input (data_pkt 6 "g")) (B_after [data_pkt 0 "a"])
    = ([], Fault OutOfBounds).
Proof.
  split.
  { exists [data_pkt 0 "a"], (B_trace [data_pkt 0 "a"]). vm_compute. reflexivity. }
  split_and!; vm_compute; reflexivity.
Qed.


(** * Further properties *)

(** ** What the checksum detects and what it does not *)

Lemma wrap_eq_iff a b : wrap a = wrap b ↔ (a - b) mod 2 ^ 32 = 0.
Proof.
  unfold wrap. split; intros H.
  - assert ((a + 2 ^ 31) mod 2 ^ 32 = (b + 2 ^ 31) mod 2 ^ 32) as H' by lia.
    replace (a - b) with ((a + 2 ^ 31) - (b + 2 ^ 31)) by lia.
    rewrite Zminus_mod, H', Z.sub_diag. done.
  - f_equal.
    replace (a + 2 ^ 31) with ((a - b) + (b + 2 ^ 31)) by lia.
    rewrite Zplus_mod, H, Z.add_0_l, Z.mod_mod; [done|lia].
Qed.

Lemma wrap_neq a b : a ≠ b → - 2 ^ 32 < a - b < 2 ^ 32 → wrap a ≠ wrap b.
Proof.
  intros Hne Hr Heq%wrap_eq_iff.
  apply Z.mod_divide in Heq as [k Hk]; lia.
Qed.

Lemma uchar_inj c1 c2 : uchar c1 = uchar c2 → c1 = c2.
Proof.
  unfold uchar. intros H%(inj Z.of_N).
  pose proof (Byte.of_to_N c1) as H1. pose proof (Byte.of_to_N c2) as H2.
  rewrite H in H1. congruence.
Qed.

Lemma sum_insert (l : list byte) (i : nat) (c c0 : byte) :
  l !! i = Some c0 →
  foldr (λ c acc, uchar c + acc) 0 (<[i := c]> l)
  = foldr (λ c acc, uchar c + acc) 0 l - uchar c0 + uchar c.
Proof.
  revert i. induction l as [|x l IH]; intros [|i] Hi; simplify_eq/=; [lia|].
  rewrite (IH i Hi). lia.
Qed.

Lemma payload_sum_vinsert (d : vec byte 20) (i : fin 20) (c : byte) :
  payload_sum (vinsert i c d) = payload_sum d - uchar (d !!! i) + uchar c.
Proof.
  unfold payload_sum. rewrite vec_to_list_insert.
  apply sum_insert. by apply vlookup_lookup.
Qed.

(** X1. A unit that passes the check fails it after any change of exactly
    one field: another [int] as sequence number, as acknowledgment number
    or as checksum, or another byte at one place of the payload. *)
Theorem checksum_detects_single_mutation (p : pkt) :
  pkt_ints p →
  Sr.IsCorrupted p = false →
  (∀ n, in_int n → n ≠ seqnum p → Sr.IsCorrupted (set_seqnum n p) = true) ∧
  (∀ a, in_int a → a ≠ acknum p → Sr.IsCorrupted (set_acknum a p) = true) ∧
  (∀ c, c ≠ checksum p → Sr.IsCorrupted (set_checksum c p) = true) ∧
  (∀ (i : fin 20) (b : byte), b ≠ payload p !!! i →
     Sr.IsCorrupted (set_payload (vinsert i b (payload p)) p) = true).
Proof.
  intros (Hs & Ha & Hc) Hok.
  unfold Sr.IsCorrupted in *. apply bool_decide_eq_false in Hok.
  assert (checksum p = Sr.ComputeChecksum p) as Hck.
  { destruct (decide (checksum p = Sr.ComputeChecksum p)); [done|by destruct Hok]. }
  clear Hok. rewrite ComputeChecksum_wrap in Hck.
  unfold in_int, INT_MIN, INT_MAX in *.
  split_and!.
  - intros n Hn Hne. apply bool_decide_eq_true.
    rewrite ComputeChecksum_wrap. cbn [seqnum acknum checksum payload set_seqnum].
    rewrite Hck. apply wrap_neq; lia.
  - intros a Han Hne. apply bool_decide_eq_true.
    rewrite ComputeChecksum_wrap. cbn [seqnum acknum checksum payload set_acknum].
    rewrite Hck. apply wrap_neq; lia.
  - intros c Hne. apply bool_decide_eq_true.
    rewrite ComputeChecksum_set_checksum, ComputeChecksum_wrap.
    cbn [checksum set_checksum]. congruence.
  - intros i b Hne. apply bool_decide_eq_true.
    rewrite ComputeChecksum_wrap. cbn [seqnum acknum checksum payload set_payload].
    rewrite Hck, payload_sum_vinsert.
    pose proof (uchar_range b). pose proof (uchar_range (payload p !!! i)).
    assert (uchar b ≠ uchar (payload p !!! i)) by (intros ?%uchar_inj; done).
    apply wrap_neq; lia.
Qed.

Lemma checksum_detects_single_mutation_witness :
  Sr.IsCorrupted (set_seqnum 999999 (data_pkt 3 "a")) = true ∧
  Sr.IsCorrupted (set_acknum 999999 (data_pkt 3 "a")) = true ∧
  Sr.IsCorrupted
    (set_payload (vinsert 0%fin "Z"%byte (payload (data_pkt 3 "a")))
                 (data_pkt 3 "a")) = true.
Proof.
  destruct (checksum_detects_single_mutation (data_pkt 3 "a"))
    as (Hseq & Hack & _ & Hpay).
  - vm_compute. repeat split; discriminate.
  - reflexivity.
  - split_and!.
    + apply Hseq; [vm_compute; split; discriminate|discriminate].
    + apply Hack; [vm_compute; split; discriminate|discriminate].
    + apply Hpay. discriminate.
Defined.

Lemma sum_Permutation (l1 l2 : list byte) :
  l1 ≡ₚ l2 →
  foldr (λ c acc, uchar c + acc) 0 l1 = foldr (λ c acc, uchar c + acc) 0 l2.
Proof. induction 1; simpl; lia. Qed.

(** X2. The checksum is additive: two units whose [seqnum + acknum] agree
    and whose payloads hold the same bytes in any order have the same
    checksum, so such a change is never seen by [IsCorrupted]. *)
Theorem checksum_blind_to_reordering (p q : pkt) :
  seqnum p + acknum p = seqnum q + acknum q →
  vec_to_list (payload p) ≡ₚ vec_to_list (payload q) →
  checksum p = checksum q →
  Sr.ComputeChecksum p = Sr.ComputeChecksum q ∧
  Sr.IsCorrupted p = Sr.IsCorrupted q.
Proof.
  intros Hsum Hperm Hck.
  assert (Sr.ComputeChecksum p = Sr.ComputeChecksum q) as Heq.
  { rewrite !ComputeChecksum_wrap. unfold payload_sum.
    rewrite (sum_Permutation _ _ Hperm). f_equal. lia. }
  split; [done|]. unfold Sr.IsCorrupted. by rewrite Heq, Hck.
Qed.

Lemma checksum_blind_to_reordering_witness :
  Sr.ComputeChecksum (set_payload payload_xy unit_xy)
  = Sr.ComputeChecksum (set_payload payload_yx unit_xy) ∧
  Sr.IsCorrupted (set_payload payload_xy unit_xy)
  = Sr.IsCorrupted (set_payload payload_yx unit_xy).
Proof.
  apply checksum_blind_to_reordering.
  - reflexivity.
  - vm_compute. apply perm_swap.
  - reflexivity.
Defined.

(** ** Initialisation *)

Lemma length_6_inv {T} (l : list T) :
  length l = Z.to_nat WINDOWSIZE →
  ∃ x0 x1 x2 x3 x4 x5, l = [x0; x1; x2; x3; x4; x5].
Proof.
  intros H. do 6 (destruct l as [|? l]; [done|]).
  destruct l; [|done]. by eexists _, _, _, _, _, _.
Qed.

(** X3. Called on a sender (receiver) in any state, [A_init] ([B_init])
    sets [A_base] and [A_nextseq] ([B_base]) to 0 and clears every
    acknowledged, timer and received flag; the buffered units and the
    statistics counters keep their values, and no event is emitted. *)
Theorem init_resets_flags_only (s : sender) (r : receiver) :
  length (A_acked s) = Z.to_nat WINDOWSIZE →
  length (A_timer_running s) = Z.to_nat WINDOWSIZE →
  length (B_received r) = Z.to_nat WINDOWSIZE →
  exec Sr.A_init s
    = ([], Ok (Sender (A_window s) (replicate 6 false) (replicate 6 false) 0 0
                      (window_full s) (total_ACKs_received s) (packets_resent s))) ∧
  exec Sr.B_init r = ([], Ok (Receiver (B_buffer r) (replicate 6 false) 0)).
Proof.
  intros Ha Ht Hr.
  destruct s as [w a tm b n wf ta pr], r as [bb br bbase]. simpl in *.
  apply length_6_inv in Ha as (a0 & a1 & a2 & a3 & a4 & a5 & ->).
  apply length_6_inv in Ht as (t0 & t1 & t2 & t3 & t4 & t5 & ->).
  apply length_6_inv in Hr as (r0 & r1 & r2 & r3 & r4 & r5 & ->).
  split; reflexivity.
Qed.

Lemma init_resets_flags_only_witness :
  exec Sr.A_init (A_after calls_abc)
    = ([], Ok (Sender (A_window (A_after calls_abc)) (replicate 6 false)
                      (replicate 6 false) 0 0 0 1 2)) ∧
  exec Sr.B_init (B_after [data_pkt 1 "b"])
    = ([], Ok (Receiver (B_buffer (B_after [data_pkt 1 "b"]))
                        (replicate 6 false) 0)).
Proof.
  apply (init_resets_flags_only (A_after calls_abc) (B_after [data_pkt 1 "b"]));
    reflexivity.
Defined.

(** ** The accept path of [B_input] *)

Lemma checksummed_not_corrupted p :
  Sr.IsCorrupted (set_checksum (Sr.ComputeChecksum p) p) = false.
Proof.
  unfold Sr.IsCorrupted. rewrite ComputeChecksum_set_checksum.
  cbn [checksum set_checksum]. apply bool_decide_eq_false. tauto.
Qed.

Lemma ack_pkt_not_corrupted a : Sr.IsCorrupted (ack_pkt a) = false.
Proof. apply checksummed_not_corrupted. Qed.

Lemma existsb_window_true (x b n : Z) :
  (∃ i, b ≤ i < b + n ∧ x = Z.rem i SEQSPACE) →
  existsb (λ i, bool_decide (x = Z.rem i SEQSPACE)) (seqZ b n) = true.
Proof.
  intros (i & Hi & Hx). apply existsb_exists. exists i. split.
  - by apply list_elem_of_In, elem_of_seqZ.
  - by apply bool_decide_eq_true.
Qed.

Lemma B_deliver_idle_wp fuel s :
  B_idle s → 0 ≤ B_base s →
  wp (Sr.B_deliver (S fuel)) s (λ t r, t = [] ∧ r = Ok (tt, s)).
Proof.
  intros Hidle Hb. unfold wp. by rewrite B_deliver_idle.
Qed.

Lemma B_deliver_head arrived fuel s p :
  B_inv arrived s → B_base s < WINDOWSIZE →
  B_received s !! Z.to_nat (B_base s) = Some true →
  B_buffer s !! Z.to_nat (B_base s) = Some p →
  (6 ≤ fuel)%nat →
  wp (Sr.B_deliver (S fuel)) s (λ t r,
    ∃ ds', t = tolayer5 B <$> (payload p :: ds')).
Proof.
  intros Hinv Hb Hr Hp Hfuel.
  assert (Z.rem (B_base s) SEQSPACE = B_base s) as Hrem.
  { destruct Hinv. unfold SEQSPACE, WINDOWSIZE in *. lia. }
  cbn [Sr.B_deliver]. wp_steps; fields; rewrite ?Hrem in *.
  - assert (Some x0 = Some p) as [= ->] by (rewrite <- H2; exact Hp).
    eapply wp_mono.
    { apply (B_deliver_spec arrived).
      - destruct Hinv. split; fields; rewrite ?length_insert; try done.
        + int_arith.
        + intros k [? Hk]%flags_insert_false. by apply B_inv_slots0.
      - fields. destruct Hinv. int_arith. }
    cbn beta. intros t r (qs & -> & _). by exists (payload <$> qs).
  - exfalso. apply lookup_lt_Some in Hr. destruct Hinv. lia.
  - exfalso. apply lookup_lt_Some in Hp. destruct Hinv. lia.
  - exfalso. assert (Some false = Some true) as [=] by (rewrite <- H0; exact Hr).
  - exfalso. apply lookup_lt_Some in Hr. destruct Hinv. lia.
Qed.

(** X4. From a state the emulator can bring about, an uncorrupted unit
    whose sequence number is in the receive window and names an existing
    slot is acknowledged with its own sequence number, by a unit that
    passes the sender's check and is sent before anything is delivered.
    If it is not the unit expected next it is only buffered (once: a
    duplicate changes nothing) and nothing is delivered; if it is, it is
    the first payload delivered by this call. *)
Theorem B_input_accepts_in_window (s : receiver) (p : pkt) :
  B_reachable s →
  Sr.IsCorrupted p = false →
  B_in_window s (seqnum p) →
  seqnum p < WINDOWSIZE →
  Sr.IsCorrupted (ack_pkt (seqnum p)) = false ∧
  ∃ ds r, exec (Sr.B_input p) s
            = (tolayer3 B (ack_pkt (seqnum p)) :: (tolayer5 B <$> ds), r) ∧
    (seqnum p = B_base s → ∃ ds', ds = payload p :: ds') ∧
    (seqnum p ≠ B_base s →
       ds = [] ∧
       ∃ s', r = Ok s' ∧ B_base s' = B_base s ∧
         B_received s' !! Z.to_nat (seqnum p) = Some true ∧
         (B_received s !! Z.to_nat (seqnum p) = Some true → s' = s) ∧
         (B_received s !! Z.to_nat (seqnum p) = Some false →
            B_buffer s' !! Z.to_nat (seqnum p) = Some p)).
Proof.
  intros (ps & Hinv & Hidle)%B_reachable_inv Hok (i & Hi & Hseq) Hslot.
  split; [apply ack_pkt_not_corrupted|].
  assert (0 ≤ B_base s < WINDOWSIZE) as Hb.
  { apply lookup_lt_Some in Hidle. destruct Hinv.
    unfold SEQSPACE, WINDOWSIZE in *. lia. }
  assert (0 ≤ seqnum p) as Hnn by (unfold SEQSPACE in *; lia).
  assert (length (B_received s) = 6%nat ∧ length (B_buffer s) = 6%nat) as [Hlr Hlb].
  { by destruct Hinv. }
  assert (B_received s !! Z.to_nat (B_base s) = Some false) as Hidle'.
  { unfold B_idle in Hidle.
    rewrite Z.rem_mod_nonneg in Hidle by (unfold SEQSPACE; lia).
    by rewrite Z.mod_small in Hidle by (unfold SEQSPACE, WINDOWSIZE in *; lia). }
  assert (∀ s1, B_base s1 = B_base s →
            B_received s1 !! Z.to_nat (B_base s) = Some false → B_idle s1)
    as Hidle1.
  { intros s1 Hb1 Hr1. unfold B_idle. rewrite Hb1.
    rewrite Z.rem_mod_nonneg by (unfold SEQSPACE; lia).
    by rewrite Z.mod_small by (unfold SEQSPACE, WINDOWSIZE in *; lia). }
  cut (wp (Sr.B_input p) s (λ t r,
    ∃ ds, t = tolayer3 B (ack_pkt (seqnum p)) :: (tolayer5 B <$> ds) ∧
      (seqnum p = B_base s → ∃ ds', ds = payload p :: ds') ∧
      (seqnum p ≠ B_base s →
         ds = [] ∧
         ∃ s', r = Ok (tt, s') ∧ B_base s' = B_base s ∧
           B_received s' !! Z.to_nat (seqnum p) = Some true ∧
           (B_received s !! Z.to_nat (seqnum p) = Some true → s' = s) ∧
           (B_received s !! Z.to_nat (seqnum p) = Some false →
              B_buffer s' !! Z.to_nat (seqnum p) = Some p)))).
  { unfold wp, exec. destruct (Sr.B_input p s) as [t r]. cbn [fst snd].
    intros (ds & -> & Heq & Hne).
    destruct r as [[[] s']|f].
    - exists ds, (Ok s'). split; [done|]. split; [done|].
      intros H. destruct (Hne H) as (-> & s'' & [= <-] & ?). split; [done|].
      by exists s'.
    - exists ds, (Fault f). split; [done|]. split; [done|].
      intros H. by destruct (Hne H) as (_ & s'' & [=] & _). }
  unfold Sr.B_input.
  wp_step; cbn beta iota. wp_step; cbn beta iota. apply wp_bind.
  assert (negb (Sr.IsCorrupted p) &&
          existsb (λ i, bool_decide (seqnum p = Z.rem i SEQSPACE))
            (seqZ (B_base s) (int_add (B_base s) WINDOWSIZE - B_base s))
          = true) as ->.
  { rewrite Hok. apply existsb_window_true. exists i.
    unfold WINDOWSIZE, SEQSPACE in *.
    rewrite int_add_small by (unfold in_int, INT_MIN, INT_MAX; lia).
    split; [lia|]. rewrite Z.rem_mod_nonneg; lia. }
  wp_steps; fields; rewrite ?length_insert in *;
    try (exfalso; unfold WINDOWSIZE in *; lia).
  - (* a duplicate of a buffered unit: not the one at [B_base] *)
    subst x.
    assert (seqnum p ≠ B_base s) as Hne by (intros Heq; rewrite Heq in *; congruence).
    eapply wp_mono; [apply B_deliver_idle_wp; [by apply Hidle1|lia]|].
    cbn beta. intros t r [-> ->]. exists []. split; [done|].
    split; [done|]. intros _. split; [done|].
    exists s. split_and!; try done. congruence.
  - (* newly buffered *)
    subst x.
    set (s1 := set_B_received (<[Z.to_nat (seqnum p) := true]> (B_received s))
                 (set_B_buffer (<[Z.to_nat (seqnum p) := p]> (B_buffer s)) s)).
    assert (B_inv (p :: ps) s1) as Hinv1.
    { destruct Hinv. split; subst s1; fields; rewrite ?length_insert; try done.
      intros k [->|Hk]%flags_insert_true.
      - exists p. split_and!; [|by apply elem_of_cons; left|done|lia].
        apply list_lookup_insert_eq. lia.
      - destruct (B_inv_slots0 k Hk) as (q & Hq & ? & ? & ?).
        exists q. split_and!; try done; [|by apply elem_of_cons; right].
        rewrite list_lookup_insert_ne; [done|]. intros Heq.
        rewrite <- Heq in Hk. congruence. }
    destruct (decide (seqnum p = B_base s)) as [Heq|Hne].
    + eapply wp_mono.
      { apply (B_deliver_head (p :: ps) _ s1 p); subst s1; fields;
          rewrite ?length_insert; try done; try lia.
        - rewrite <- Heq. apply list_lookup_insert_eq. lia.
        - rewrite <- Heq. apply list_lookup_insert_eq. lia. }
      cbn beta. intros t r (ds' & ->).
      exists (payload p :: ds'). split; [done|]. split; [by exists ds'|done].
    + eapply wp_mono.
      { apply B_deliver_idle_wp; [|subst s1; fields; lia].
        apply Hidle1; subst s1; fields; [done|].
        rewrite list_lookup_insert_ne by lia. done. }
      cbn beta. intros t r [-> ->]. exists []. split; [done|].
      split; [done|]. intros _. split; [done|].
      exists s1. split_and!; try done.
      * subst s1; fields. apply list_lookup_insert_eq. lia.
      * intros. congruence.
      * intros _. subst s1; fields. apply list_lookup_insert_eq. lia.
Qed.

Lemma B_input_accepts_in_window_witness :
  ∃ ds r, exec (Sr.B_input (data_pkt 0 "a")) (B_after [data_pkt 1 "b"])
            = (tolayer3 B (ack_pkt 0) :: (tolayer5 B <$> ds), r) ∧
          ∃ ds', ds = mk_payload "a" :: ds'.
Proof.
  destruct (B_input_accepts_in_window (B_after [data_pkt 1 "b"]) (data_pkt 0 "a"))
    as (_ & ds & r & Hrun & Hfirst & _).
  - exists [data_pkt 1 "b"], (B_trace [data_pkt 1 "b"]). vm_compute. reflexivity.
  - reflexivity.
  - exists 0. vm_compute. repeat split; discriminate.
  - reflexivity.
  - exists ds, r. split; [exact Hrun|]. apply Hfirst. reflexivity.
Defined.

(** ** [A_output] where it stays inside the arrays *)

Lemma wp_exec_eq {St T} (m : M St T) (s : St) (t : list event) (r : res St) :
  wp m s (λ (t' : list event) (r' : res (T * St)), t' = t ∧
            match r' with
            | Ok xs => r = Ok xs.2
            | Fault f => r = Fault f
            end) →
  exec m s = (t, r).
Proof.
  unfold wp, exec. destruct (m s) as [t' [[x s']|f]]; cbn [fst snd].
  - by intros [-> ->].
  - by intros [-> ->].
Qed.

(** X5. [A_output] on a sender whose window has room
    ([A_nextseq < A_base + WINDOWSIZE]) and whose next sequence number
    names an existing slot: the unit built carries
    [A_nextseq mod SEQSPACE], [NOTINUSE], the message and a checksum that
    passes [IsCorrupted]; it is stored in that slot, the slot's
    acknowledged flag is cleared and its timer flag set, the unit is sent,
    [starttimer] is called exactly when the slot's timer flag was clear, and
    [A_nextseq] grows by one. When the window is full nothing is sent and
    only [window_full] changes, by one. *)
Theorem A_output_effect (s : sender) (m : msg) :
  sender_sized s →
  0 ≤ A_base s → 0 ≤ A_nextseq s →
  A_base s + WINDOWSIZE ≤ INT_MAX → A_nextseq s < INT_MAX →
  let seq := A_nextseq s mod SEQSPACE in
  let p := data_unit seq m in
  (A_nextseq s < A_base s + WINDOWSIZE → seq < WINDOWSIZE →
     exec (Sr.A_output m) s
       = (tolayer3 A p ::
            (if (A_timer_running s !!! Z.to_nat seq : bool) then []
             else [starttimer A RTT]),
          Ok (Sender (<[Z.to_nat seq := p]> (A_window s))
                     (<[Z.to_nat seq := false]> (A_acked s))
                     (<[Z.to_nat seq := true]> (A_timer_running s))
                     (A_base s) (A_nextseq s + 1)
                     (window_full s) (total_ACKs_received s) (packets_resent s)))
     ∧ Sr.IsCorrupted p = false) ∧
  (A_base s + WINDOWSIZE ≤ A_nextseq s →
     exec (Sr.A_output m) s = ([], Ok (set_window_full (window_full s + 1) s))).
Proof.
  intros (Hw & Ha & Ht) Hb Hn Hbmax Hnmax seq p.
  assert (int_add (A_base s) WINDOWSIZE = A_base s + WINDOWSIZE) as Hadd.
  { apply int_add_small. unfold in_int, INT_MIN, INT_MAX, WINDOWSIZE in *. lia. }
  assert (Z.rem (A_nextseq s) SEQSPACE = seq) as Hrem.
  { subst seq. rewrite Z.rem_mod_nonneg; unfold SEQSPACE; lia. }
  split.
  - intros Hroom Hslot.
    split; [|apply checksummed_not_corrupted].
    apply wp_exec_eq. unfold Sr.A_output.
    wp_step; cbn beta iota. wp_step; cbn beta iota.
    rewrite Hadd, bool_decide_eq_true_2 by done. rewrite Hrem.
    fold (data_unit seq m). fold p.
    assert (0 ≤ seq) by (subst seq; unfold SEQSPACE; lia).
    destruct s as [w a tm b n wf ta pr]; cbn in Hw, Ha, Ht, Hn, Hnmax |- *.
    wp_steps; fields; rewrite ?length_insert in *;
      try (exfalso; unfold WINDOWSIZE in *; lia).
    + subst x.
      match goal with
      | H : tm !! _ = Some _ |- _ =>
          rewrite (list_lookup_total_correct _ _ _ H);
          rewrite (list_insert_id _ _ _ H)
      end.
      split; [done|].
      by rewrite int_add_small by (unfold in_int, INT_MIN, INT_MAX in *; lia).
    + subst x.
      match goal with
      | H : tm !! _ = Some _ |- _ => rewrite (list_lookup_total_correct _ _ _ H)
      end.
      split; [done|].
      by rewrite int_add_small by (unfold in_int, INT_MIN, INT_MAX in *; lia).
  - intros Hfull. apply wp_exec_eq. unfold Sr.A_output.
    wp_step; cbn beta iota. wp_step; cbn beta iota.
    rewrite Hadd, bool_decide_eq_false_2 by lia.
    by wp_steps.
Qed.

Ltac by_compute :=
  vm_compute; first [reflexivity | discriminate | repeat split; discriminate].

Lemma A_output_effect_witness :
  (exec (Sr.A_output (msg_of "d")) (A_after calls_abc)).1
    = [tolayer3 A (data_pkt 3 "d"); starttimer A RTT] ∧
  exec (Sr.A_output (msg_of "g")) (A_after calls_six)
    = ([], Ok (set_window_full 1 (A_after calls_six))).
Proof.
  split.
  - destruct (A_output_effect (A_after calls_abc) (msg_of "d")) as [Hroom _];
      [repeat split; reflexivity|by_compute..|].
    destruct Hroom as [-> _]; [by_compute..|]. reflexivity.
  - destruct (A_output_effect (A_after calls_six) (msg_of "g")) as [_ Hfull];
      [repeat split; reflexivity|by_compute..|].
    rewrite Hfull; [reflexivity|by_compute].
Defined.

(** ** [A_input]: what is ignored, what is acknowledged *)

Lemma A_slide_run fuel s :
  A_inv s →
  A_nextseq s - A_base s < Z.of_nat fuel →
  wp (Sr.A_slide fuel) s (λ t r,
    t = [] ∧
    ∃ b', A_base s ≤ b' ≤ A_nextseq s ∧
      (∀ j, A_base s ≤ j < b' → A_acked s !! Z.to_nat j = Some true) ∧
      match r with
      | Ok (_, s') => A_slid s b' s'
      | Fault f => f = OutOfBounds ∧ b' = WINDOWSIZE
      end).
Proof.
  revert s. induction fuel as [|fuel IH]; intros s Hinv Hfuel.
  { destruct Hinv. lia. }
  assert (0 ≤ A_base s ≤ WINDOWSIZE) as Hb by (destruct Hinv; lia).
  assert (Z.rem (A_base s) SEQSPACE = A_base s) as Hrem.
  { unfold SEQSPACE, WINDOWSIZE in *. lia. }
  assert (length (A_acked s) = 6%nat) as Hlen by (by destruct Hinv).
  cbn [Sr.A_slide]. wp_steps; fields; rewrite ?Hrem in *.
  - (* the flag at [A_base] is set *)
    subst x.
    match goal with H : _ !! _ = Some true |- _ => rename H into Hset end.
    assert (A_base s < A_nextseq s) as Hlt.
    { destruct (A_inv_flags _ Hinv _ Hset) as (j & Hj & _). lia. }
    assert (int_add (A_base s) 1 = A_base s + 1) as Hnext.
    { destruct Hinv. int_arith. }
    rewrite Hnext.
    eapply wp_mono.
    { apply IH.
      - destruct Hinv. unfold SEQSPACE, WINDOWSIZE in *.
        split; fields; rewrite ?length_insert; try done;
          try (unfold SEQSPACE, WINDOWSIZE in *; lia).
        intros i [Hne Hi]%flags_insert_false.
        destruct (A_inv_flags0 _ Hi) as (j & Hj & Hr).
        exists j. split; [|done].
        assert (j ≠ A_base s) by (intros ->; lia). lia.
      - fields. lia. }
    cbn beta. fields. intros t r (-> & b' & Hb' & Hrun & Hr).
    split; [done|]. exists b'. split; [lia|]. split.
    { intros j Hj. destruct (decide (j = A_base s)) as [->|Hne]; [done|].
      specialize (Hrun j ltac:(lia)).
      rewrite list_lookup_insert_ne in Hrun by lia. done. }
    destruct r as [[[] s']|f]; [|done].
    destruct Hr as [Hsb Hsame Hslen Hsflags Hsstop]. fields.
    rewrite length_insert in Hslen.
    split; try done.
    + intros k. rewrite Hsflags. split.
      * intros [[Hne Hk]%flags_insert_false Hout]. split; [done|]. lia.
      * intros [Hk Hout]. split; [|lia].
        rewrite list_lookup_insert_ne; [done|]. lia.
    + destruct (decide (b' = A_base s)) as [->|Hne]; [lia|].
      rewrite list_lookup_insert_ne in Hsstop by lia. done.
  - exfalso. lia.
  - (* the flag at [A_base] is clear: the loop stops *)
    subst x. split; [done|]. exists (A_base s). split; [destruct Hinv; lia|].
    split; [intros j Hj; lia|].
    split; try done.
    intros k. split; [|tauto]. intros Hk. split; [done|lia].
  - (* [A_base] has reached the end of the array *)
    split; [done|]. exists (A_base s). split; [destruct Hinv; lia|].
    split; [intros j Hj; lia|]. split; [done|].
    unfold WINDOWSIZE in *. lia.
Qed.

Lemma A_in_window_range s a :
  A_inv s → A_in_window s a ↔ A_base s ≤ a < A_nextseq s.
Proof.
  intros Hinv. destruct Hinv. unfold A_in_window, SEQSPACE, WINDOWSIZE in *.
  split.
  - intros (i & Hi & ->). rewrite Z.mod_small; lia.
  - intros Ha. exists a. rewrite Z.mod_small; lia.
Qed.

Lemma find_window_None (ack b n : Z) :
  find (λ i, bool_decide (ack = Z.rem i SEQSPACE)) (seqZ b n) = None →
  ∀ i, b ≤ i < b + n → ack ≠ Z.rem i SEQSPACE.
Proof.
  intros Hnone i Hi Heq.
  eapply find_none in Hnone; [|apply list_elem_of_In, elem_of_seqZ; exact Hi].
  by apply bool_decide_eq_false in Hnone.
Qed.

Lemma A_find_in_window s (a : Z) :
  A_inv s →
  match find (λ i, bool_decide (a = Z.rem i SEQSPACE))
             (seqZ (A_base s) (A_nextseq s - A_base s)) with
  | Some _ => A_base s ≤ a < A_nextseq s
  | None => ¬ (A_base s ≤ a < A_nextseq s)
  end.
Proof.
  intros Hinv. destruct (find _ _) as [i|] eqn:Hfind.
  - apply find_window_Some in Hfind as [Hi ->].
    destruct Hinv. unfold SEQSPACE, WINDOWSIZE in *. lia.
  - intros Ha. apply (find_window_None _ _ _ Hfind a); [lia|].
    destruct Hinv. unfold SEQSPACE, WINDOWSIZE in *. lia.
Qed.

(** X6. From a state the emulator can bring about, [A_input] does nothing
    at all (no event, no change of state, no count) on a corrupted unit,
    on an acknowledgment number outside the window
    [[A_base, A_nextseq)] modulo [SEQSPACE], and on the acknowledgment of a
    slot already marked acknowledged. *)
Theorem A_input_ignores (s : sender) (p : pkt) :
  A_reachable s →
  Sr.IsCorrupted p = true ∨ ¬ A_in_window s (acknum p) ∨
    A_acked s !! Z.to_nat (acknum p) = Some true →
  exec (Sr.A_input p) s = ([], Ok s).
Proof.
  intros Hinv%A_reachable_inv Hcase.
  apply wp_exec_eq. unfold Sr.A_input.
  destruct (Sr.IsCorrupted p) eqn:Hc; [by wp_steps|].
  destruct Hcase as [?|Hcase]; [done|].
  wp_step; cbn beta iota. wp_step; cbn beta iota.
  pose proof (A_find_in_window s (acknum p) Hinv) as Hfind.
  destruct (find _ _) as [i|]; [|by wp_steps].
  destruct Hcase as [Hout|Hacked].
  { exfalso. apply Hout. by apply A_in_window_range. }
  wp_step; cbn beta iota. wp_step; cbn beta iota.
  - match goal with
    | H : _ !! _ = Some ?x |- _ => rewrite Hacked in H; injection H as <-
    end.
    by wp_steps.
  - exfalso. apply lookup_lt_Some in Hacked. destruct Hinv. lia.
Qed.

Lemma A_input_ignores_witness :
  exec (Sr.A_input (ack_pkt 1)) (A_after calls_abc) = ([], Ok (A_after calls_abc)) ∧
  exec (Sr.A_input (ack_pkt 5)) (A_after calls_abc) = ([], Ok (A_after calls_abc)).
Proof.
  split; apply A_input_ignores;
    try (exists calls_abc, (A_trace calls_abc); vm_compute; reflexivity).
  - right. right. reflexivity.
  - right. left. intros (i & Hi & Heq).
    change (A_base (A_after calls_abc)) with 0 in Hi.
    change (A_nextseq (A_after calls_abc)) with 3 in Hi.
    change (acknum (ack_pkt 5)) with 5 in Heq.
    unfold SEQSPACE in *. lia.
Defined.

Lemma A_input_acknowledges_inv (s : sender) (p : pkt) :
  A_inv s →
  Sr.IsCorrupted p = false →
  A_base s ≤ acknum p < A_nextseq s →
  A_acked s !! Z.to_nat (acknum p) = Some false →
  let marked := <[Z.to_nat (acknum p) := true]> (A_acked s) in
  ∃ b' r,
    exec (Sr.A_input p) s
      = ((if (A_timer_running s !!! Z.to_nat (acknum p) : bool)
          then [stoptimer A] else []), r) ∧
    A_base s ≤ b' ≤ A_nextseq s ∧
    (∀ j, A_base s ≤ j < b' → marked !! Z.to_nat j = Some true) ∧
    match r with
    | Ok s' =>
        marked !! Z.to_nat b' = Some false ∧
        A_base s' = b' ∧ A_nextseq s' = A_nextseq s ∧
        A_window s' = A_window s ∧
        A_timer_running s'
          = <[Z.to_nat (acknum p) := false]> (A_timer_running s) ∧
        total_ACKs_received s' = total_ACKs_received s + 1 ∧
        window_full s' = window_full s ∧
        packets_resent s' = packets_resent s ∧
        (∀ k : nat, A_acked s' !! k = Some true ↔
           marked !! k = Some true ∧ ¬ (A_base s ≤ Z.of_nat k < b'))
    | Fault f => f = OutOfBounds ∧ b' = WINDOWSIZE
    end.
Proof.
  intros Hinv Hok Hwin Hclear marked.
  cut (wp (Sr.A_input p) s (λ t r,
    t = (if (A_timer_running s !!! Z.to_nat (acknum p) : bool)
         then [stoptimer A] else []) ∧
    ∃ b', A_base s ≤ b' ≤ A_nextseq s ∧
      (∀ j, A_base s ≤ j < b' → marked !! Z.to_nat j = Some true) ∧
      match r with
      | Ok (_, s') =>
          marked !! Z.to_nat b' = Some false ∧
          A_base s' = b' ∧ A_nextseq s' = A_nextseq s ∧
          A_window s' = A_window s ∧
          A_timer_running s'
            = <[Z.to_nat (acknum p) := false]> (A_timer_running s) ∧
          total_ACKs_received s' = total_ACKs_received s + 1 ∧
          window_full s' = window_full s ∧
          packets_resent s' = packets_resent s ∧
          (∀ k : nat, A_acked s' !! k = Some true ↔
             marked !! k = Some true ∧ ¬ (A_base s ≤ Z.of_nat k < b'))
      | Fault f => f = OutOfBounds ∧ b' = WINDOWSIZE
      end)).
  { unfold wp, exec. destruct (Sr.A_input p s) as [t r]. cbn [fst snd].
    intros (-> & b' & Hb' & Hrun & Hr).
    destruct r as [[[] s']|f]; [by exists b', (Ok s')|by exists b', (Fault f)]. }
  unfold Sr.A_input. rewrite Hok.
  wp_step; cbn beta iota. wp_step; cbn beta iota.
  pose proof (A_find_in_window s (acknum p) Hinv) as Hfind.
  destruct (find _ _) as [i|]; [clear Hfind|done].
  wp_step; cbn beta iota. wp_step; cbn beta iota.
  2:{ exfalso. apply lookup_lt_Some in Hclear. destruct Hinv. lia. }
  match goal with
  | H : _ !! _ = Some ?x |- _ => rewrite Hclear in H; injection H as <-
  end.
  subst marked.
  destruct s as [w a tm b n wf ta pr]; fields.
  assert (∀ tm', length tm' = Z.to_nat WINDOWSIZE →
            A_inv (Sender w (<[Z.to_nat (acknum p) := true]> a) tm'
                          b n wf (ta + 1) pr)) as Hmark.
  { intros tm' Htm'. destruct Hinv; fields.
    split; fields; rewrite ?length_insert; try done.
    intros k [->|Hk]%flags_insert_true.
    - exists (acknum p). unfold SEQSPACE, WINDOWSIZE in *. lia.
    - by apply A_inv_flags0. }
  assert (length a = 6%nat ∧ length tm = 6%nat) as [Hla Hltm] by (by destruct Hinv).
  assert (0 ≤ b ≤ n ∧ n ≤ 6) as Hbn by (destruct Hinv; fields; unfold WINDOWSIZE in *; lia).
  assert (∀ tm' t0,
    length tm' = Z.to_nat WINDOWSIZE →
    tm' = <[Z.to_nat (acknum p) := false]> tm →
    wp (Sr.A_slide (S (length (<[Z.to_nat (acknum p) := true]> a))))
       (Sender w (<[Z.to_nat (acknum p) := true]> a) tm' b n wf (ta + 1) pr)
       (λ t' r', t0 ++ t' = t0 ∧
          ∃ b', b ≤ b' ≤ n ∧
            (∀ j, b ≤ j < b' →
               <[Z.to_nat (acknum p) := true]> a !! Z.to_nat j = Some true) ∧
            match r' with
            | Ok (_, s') =>
                <[Z.to_nat (acknum p) := true]> a !! Z.to_nat b' = Some false ∧
                A_base s' = b' ∧ A_nextseq s' = n ∧ A_window s' = w ∧
                A_timer_running s' = <[Z.to_nat (acknum p) := false]> tm ∧
                total_ACKs_received s' = ta + 1 ∧
                window_full s' = wf ∧ packets_resent s' = pr ∧
                (∀ k : nat, A_acked s' !! k = Some true ↔
                   <[Z.to_nat (acknum p) := true]> a !! k = Some true ∧
                   ¬ (b ≤ Z.of_nat k < b'))
            | Fault f => f = OutOfBounds ∧ b' = WINDOWSIZE
            end)) as Hslide.
  { intros tm' t0 Hlen' ->.
    eapply wp_mono.
    { apply A_slide_run; [by apply Hmark|]. fields. rewrite length_insert. lia. }
    cbn beta. fields. intros t' r' (-> & b' & Hb' & Hrun & Hr).
    split; [by rewrite app_nil_r|]. exists b'. split; [done|]. split; [done|].
    destruct r' as [[[] s']|f]; [|done].
    destruct Hr as [Hsb (Hw' & Htm' & Hn' & Hwf' & Hta' & Hpr') Hslen Hsflags Hsstop].
    fields. split_and!; done. }
  wp_steps; fields; rewrite ?length_insert in *;
    try (exfalso; unfold WINDOWSIZE in *; lia).
  - (* the timer flag of the slot was set *)
    subst x.
    match goal with
    | H : tm !! _ = Some _ |- _ => rewrite (list_lookup_total_correct _ _ _ H)
    end.
    eapply wp_mono; [apply (Hslide _ [stoptimer A]);
                       [by rewrite length_insert|done]|].
    cbn beta. intros t' r' [Ht' Hpost]. split; [|done].
    by apply (inj (app [stoptimer A])) in Ht' as ->.
  - subst x.
    match goal with
    | H : tm !! _ = Some _ |- _ =>
        rewrite (list_lookup_total_correct _ _ _ H);
        pose proof (list_insert_id _ _ _ H) as Hid
    end.
    eapply wp_mono; [apply (Hslide _ []); [done|by rewrite Hid]|].
    cbn beta. intros t' r' [Ht' Hpost]. split; [|done]. by rewrite Ht'.
Qed.


(** X7. From a state the emulator can bring about, the uncorrupted
    acknowledgment of a sequence number of the window whose slot is not yet
    marked: the slot is marked, its timer flag cleared ([stoptimer] is
    called exactly when it was set), the count of acknowledgments grows by
    one, and [A_base] moves to the first sequence number [b'] at or after
    it whose slot is not marked, the flags of the slots passed being
    cleared and no other flag, unit or counter touched ([window_full] and
    [packets_resent] keep their values). When every slot up
    to the end of the array is marked the loop leaves the array
    ([b' = WINDOWSIZE]). *)
Theorem A_input_acknowledges (s : sender) (p : pkt) :
  A_reachable s →
  Sr.IsCorrupted p = false →
  A_in_window s (acknum p) →
  A_acked s !! Z.to_nat (acknum p) = Some false →
  let marked := <[Z.to_nat (acknum p) := true]> (A_acked s) in
  ∃ b' r,
    exec (Sr.A_input p) s
      = ((if (A_timer_running s !!! Z.to_nat (acknum p) : bool)
          then [stoptimer A] else []), r) ∧
    A_base s ≤ b' ≤ A_nextseq s ∧
    (∀ j, A_base s ≤ j < b' → marked !! Z.to_nat j = Some true) ∧
    match r with
    | Ok s' =>
        marked !! Z.to_nat b' = Some false ∧
        A_base s' = b' ∧ A_nextseq s' = A_nextseq s ∧
        A_window s' = A_window s ∧
        A_timer_running s'
          = <[Z.to_nat (acknum p) := false]> (A_timer_running s) ∧
        total_ACKs_received s' = total_ACKs_received s + 1 ∧
        window_full s' = window_full s ∧
        packets_resent s' = packets_resent s ∧
        (∀ k : nat, A_acked s' !! k = Some true ↔
           marked !! k = Some true ∧ ¬ (A_base s ≤ Z.of_nat k < b'))
    | Fault f => f = OutOfBounds ∧ b' = WINDOWSIZE
    end.
Proof.
  intros Hinv%A_reachable_inv Hok Hwin%A_in_window_range Hclear; [|done].
  by apply A_input_acknowledges_inv.
Qed.

Lemma A_input_acknowledges_witness :
  ∃ b' r, exec (Sr.A_input (ack_pkt 0)) (A_after calls_two_ack1)
            = ([stoptimer A], r) ∧
          0 ≤ b' ≤ 2 ∧
          match r with Ok s' => A_base s' = b' | Fault _ => b' = WINDOWSIZE end.
Proof.
  destruct (A_input_acknowledges (A_after calls_two_ack1) (ack_pkt 0))
    as (b' & r & Hrun & Hb' & _ & Hr).
  - exists calls_two_ack1, (A_trace calls_two_ack1). vm_compute. reflexivity.
  - reflexivity.
  - exists 0. by_compute.
  - reflexivity.
  - exists b', r. split; [exact Hrun|]. split; [exact Hb'|].
    destruct r as [s'|f]; [by destruct Hr as (_ & ? & _)|by destruct Hr].
Defined.

Lemma A_input_ignores_inv (s : sender) (p : pkt) :
  A_inv s →
  Sr.IsCorrupted p = true ∨ ¬ (A_base s ≤ acknum p < A_nextseq s) ∨
    A_acked s !! Z.to_nat (acknum p) = Some true →
  exec (Sr.A_input p) s = ([], Ok s).
Proof.
  intros Hinv Hcase.
  apply wp_exec_eq. unfold Sr.A_input.
  destruct (Sr.IsCorrupted p) eqn:Hc; [by wp_steps|].
  destruct Hcase as [?|Hcase]; [done|].
  wp_step; cbn beta iota. wp_step; cbn beta iota.
  pose proof (A_find_in_window s (acknum p) Hinv) as Hfind.
  destruct (find _ _) as [i|]; [|by wp_steps].
  destruct Hcase as [Hout|Hacked]; [done|].
  wp_step; cbn beta iota. wp_step; cbn beta iota.
  - match goal with
    | H : _ !! _ = Some ?x |- _ => rewrite Hacked in H; injection H as <-
    end.
    by wp_steps.
  - exfalso. apply lookup_lt_Some in Hacked. destruct Hinv. lia.
Qed.

Lemma A_step_reachable s c t s' :
  A_reachable s → exec (Sr.A_step c) s = (t, Ok s') → A_inv s'.
Proof.
  intros Hinv%A_reachable_inv Hrun.
  pose proof (wp_exec_run _ _ _ (A_step_inv c s Hinv) _ _ Hrun) as Hpost.
  by destruct Hpost as ([] & ? & _).
Qed.

(** X8. [A_input] is idempotent: from a state the emulator can bring
    about, a unit that [A_input] has just handled is ignored when it
    arrives again, with no event and no change of state. *)
Theorem A_input_idempotent (s : sender) (p : pkt) (t : list event) (s' : sender) :
  A_reachable s →
  exec (Sr.A_input p) s = (t, Ok s') →
  exec (Sr.A_input p) s' = ([], Ok s').
Proof.
  intros Hreach Hrun.
  pose proof (A_reachable_inv _ Hreach) as Hinv.
  assert (A_inv s') as Hinv' by (by eapply (A_step_reachable s (Call_A_input p))).
  destruct (Sr.IsCorrupted p) eqn:Hc.
  { apply A_input_ignores_inv; auto. }
  destruct (decide (A_base s ≤ acknum p < A_nextseq s)) as [Hwin|Hout].
  2:{ rewrite A_input_ignores_inv in Hrun by auto. injection Hrun as _ <-.
      apply A_input_ignores_inv; auto. }
  assert (0 ≤ acknum p < 6) as Hidx by (destruct Hinv; unfold WINDOWSIZE in *; lia).
  destruct (A_acked s !! Z.to_nat (acknum p)) as [[]|] eqn:Hflag.
  - rewrite A_input_ignores_inv in Hrun by auto. injection Hrun as _ <-.
    apply A_input_ignores_inv; auto.
  - destruct (A_input_acknowledges_inv s p) as (b' & r & Hrun' & Hb' & _ & Hr);
      [done|done|done|done|].
    rewrite Hrun in Hrun'. injection Hrun' as _ <-.
    destruct Hr as (_ & Hbase' & Hn' & _ & _ & _ & _ & _ & Hflags).
    apply A_input_ignores_inv; [done|].
    destruct (decide (b' ≤ acknum p)) as [Hge|Hlt].
    + right. right. apply Hflags. split; [|lia].
      apply list_lookup_insert_eq. destruct Hinv. unfold WINDOWSIZE in *. lia.
    + right. left. lia.
  - exfalso. apply lookup_ge_None in Hflag. destruct Hinv.
    unfold WINDOWSIZE in *. lia.
Qed.

Lemma A_input_idempotent_witness :
  exec (Sr.A_input (ack_pkt 0))
       (A_after (calls_two_ack1 ++ [Call_A_input (ack_pkt 0)]))
  = ([], Ok (A_after (calls_two_ack1 ++ [Call_A_input (ack_pkt 0)]))).
Proof.
  apply (A_input_idempotent (A_after calls_two_ack1) (ack_pkt 0) [stoptimer A]).
  - exists calls_two_ack1, (A_trace calls_two_ack1). vm_compute. reflexivity.
  - vm_compute. reflexivity.
Defined.

(** ** What the sender hands to the channel, and how it rearms the timer *)

Lemma wp_and {St T} (m : M St T) s (Q1 Q2 : list event → res (T * St) → Prop) :
  wp m s Q1 → wp m s Q2 → wp m s (λ t r, Q1 t r ∧ Q2 t r).
Proof. unfold wp. auto. Qed.

Lemma wp_of_exec {St T} (m : M St T) s (Q : list event → res St → Prop) :
  (∀ t r, exec m s = (t, r) → Q t r) → wp m s (λ t r, Q t (strip r)).
Proof.
  unfold wp, exec. intros H. destruct (m s) as [t [[x s']|f]]; cbn; by apply H.
Qed.

Lemma sent_nil who : sent who [] = [].
Proof. done. Qed.

Lemma sent_tolayer3 who p t : sent who (tolayer3 who p :: t) = p :: sent who t.
Proof. unfold sent. cbn. by rewrite decide_True. Qed.

Lemma sent_tolayer5 who w d t : sent who (tolayer5 w d :: t) = sent who t.
Proof. done. Qed.

Lemma sent_starttimer who w i t : sent who (starttimer w i :: t) = sent who t.
Proof. done. Qed.

Lemma sent_stoptimer who w t : sent who (stoptimer w :: t) = sent who t.
Proof. done. Qed.

Ltac sent_simpl :=
  cbn [app];
  rewrite ?sent_tolayer3, ?sent_tolayer5, ?sent_starttimer, ?sent_stoptimer,
          ?sent_nil.

Lemma A_inv_units_start :
  ∃ s, Sr.A_init sender_statics = ([], Ok (tt, s)) ∧ A_inv_units s.
Proof.
  destruct A_inv_start as (s & Hs & Hinv & Hb & Hn).
  exists s. split; [done|]. split; [done|intros j; lia..].
Qed.

Lemma A_output_units m s :
  A_inv_units s →
  wp (Sr.A_output m) s (λ t r,
    Forall data_unit_ok (sent A t) ∧
    match r with
    | Ok (_, s') => A_inv_units s'
    | Fault _ => True
    end).
Proof.
  intros [Hinv Harmed Hwindow].
  pose proof (A_output_inv m s Hinv) as Hwp. revert Hwp.
  unfold wp. set (o := Sr.A_output m s).
  assert (wp (Sr.A_output m) s (λ t r,
    Forall data_unit_ok (sent A t) ∧
    match r with
    | Ok (_, s') =>
        (∀ j, A_base s' ≤ j < A_nextseq s' →
           A_acked s' !! Z.to_nat j = Some false →
           A_timer_running s' !! Z.to_nat j = Some true) ∧
        (∀ j, A_base s' ≤ j < A_nextseq s' →
           ∃ p, A_window s' !! Z.to_nat j = Some p ∧ seqnum p = j ∧
                data_unit_ok p)
    | Fault _ => True
    end)) as Hwp2.
  { unfold Sr.A_output.
    wp_step; cbn beta iota. wp_step; cbn beta iota.
    case_bool_decide as Hroom; [|by wp_steps].
    assert (A_nextseq s < A_base s + WINDOWSIZE) as Hroom'.
    { destruct Hinv. revert Hroom. int_arith. }
    assert (0 ≤ A_nextseq s ≤ 6) as Hn.
    { destruct Hinv. unfold WINDOWSIZE in *. lia. }
    assert (0 ≤ A_base s) as Hb by (destruct Hinv; lia).
    set (p := set_checksum _ _).
    assert (data_unit_ok p ∧ seqnum p = Z.rem (A_nextseq s) SEQSPACE) as [Hp Hpseq].
    { split; [|done]. split; [apply checksummed_not_corrupted|].
      split; [done|]. cbn. unfold SEQSPACE. lia. }
    assert (Z.rem (A_nextseq s) SEQSPACE = A_nextseq s) as Hrem
      by (unfold SEQSPACE in *; lia).
    assert (int_add (A_nextseq s) 1 = A_nextseq s + 1) as Hnext
      by (apply int_add_small; unfold in_int, INT_MIN, INT_MAX; lia).
    rewrite Hrem in *.
    wp_steps; fields; rewrite ?length_insert in *; rewrite ?Hnext.
    all: split;
      [sent_simpl; first [by apply Forall_singleton | by constructor]|];
      try done.
    all: split; intros j Hj;
         (destruct (decide (j = A_nextseq s)) as [->|Hne];
          [rewrite ?list_lookup_insert_eq by lia; try done; try by eexists
          |rewrite ?list_lookup_insert_ne by lia;
           try (apply Harmed; lia); try (apply Hwindow; lia)]). }
  revert Hwp2. unfold wp. fold o. destruct o as [t [[[] s']|f]]; cbn [fst snd].
  - intros [Hsent [Ha Hw]] (Hinv' & _). split; [done|]. by split.
  - by intros [Hsent _] _.
Qed.

Lemma A_input_sends_nothing p s :
  wp (Sr.A_input p) s (λ t _, sent A t = []).
Proof.
  unfold Sr.A_input. destruct (Sr.IsCorrupted p); [by wp_steps|].
  wp_step; cbn beta iota. wp_step; cbn beta iota.
  destruct (find _ _); [|by wp_steps].
  assert (∀ fuel s1 t0, sent A t0 = [] →
            wp (Sr.A_slide fuel) s1 (λ t' _, sent A (t0 ++ t') = [])) as Hslide.
  { induction fuel as [|fuel IH]; intros s1 t0 Ht0; cbn [Sr.A_slide].
    - wp_steps. by rewrite app_nil_r.
    - wp_steps; rewrite ?app_nil_r, ?app_nil_l; try done.
      eapply wp_mono; [by apply (IH _ t0)|]. cbn beta. intros t' _ Ht'.
      by rewrite !app_nil_l. }
  wp_steps; rewrite ?app_nil_l; try done.
  - eapply wp_mono; [by apply (Hslide _ _ [stoptimer A])|]. cbn beta.
    intros t' _ Ht'. by rewrite ?app_nil_l, ?app_nil_r in *.
  - eapply wp_mono; [by apply (Hslide _ _ [])|]. cbn beta.
    intros t' _ Ht'. by rewrite ?app_nil_l, ?app_nil_r in *.
Qed.

Lemma A_input_units p s :
  A_inv_units s →
  wp (Sr.A_input p) s (λ t r,
    Forall data_unit_ok (sent A t) ∧
    match r with
    | Ok (_, s') => A_inv_units s'
    | Fault _ => True
    end).
Proof.
  intros [Hinv Harmed Hwindow].
  apply wp_and.
  { eapply wp_mono; [apply A_input_sends_nothing|]. cbn beta.
    intros t _ ->. constructor. }
  cut (∀ t r, exec (Sr.A_input p) s = (t, r) →
         match r with Ok s' => A_inv_units s' | Fault _ => True end).
  { intros H. eapply wp_mono; [apply (wp_of_exec _ _ _ H)|].
    cbn beta. by intros t [[[] s']|f]. }
  intros t r Hrun. destruct r as [s'|f]; [|done].
  assert (A_inv s') as Hinv'.
  { pose proof (wp_exec_run _ _ _ (A_input_inv p s Hinv) _ _ Hrun) as Hpost.
    by destruct Hpost as ([] & ? & _). }
  assert (length (A_acked s) = 6%nat ∧ 0 ≤ A_base s ∧ A_nextseq s ≤ 6)
    as (Hlen & Hb & Hn) by (destruct Hinv; unfold WINDOWSIZE in *; lia).
  destruct (Sr.IsCorrupted p) eqn:Hc.
  { rewrite A_input_ignores_inv in Hrun by auto. by injection Hrun as _ <-. }
  destruct (decide (A_base s ≤ acknum p < A_nextseq s)) as [Hwin|Hout].
  2:{ rewrite A_input_ignores_inv in Hrun by auto. by injection Hrun as _ <-. }
  destruct (A_acked s !! Z.to_nat (acknum p)) as [[]|] eqn:Hflag.
  - rewrite A_input_ignores_inv in Hrun by auto. by injection Hrun as _ <-.
  - destruct (A_input_acknowledges_inv s p) as (b' & r & Hrun' & Hb' & _ & Hr);
      [done..|].
    rewrite Hrun in Hrun'. injection Hrun' as _ <-.
    destruct Hr as (_ & Hbase' & Hn' & Hw' & Htm' & _ & Hflags).
    split; [done| |].
    + intros j Hj Hclear. rewrite Hbase', Hn' in Hj. rewrite Htm'.
      assert (length (A_acked s') = 6%nat) as Hlen' by (by destruct Hinv').
      destruct (decide (j = acknum p)) as [->|Hne].
      * exfalso.
        assert (A_acked s' !! Z.to_nat (acknum p) = Some true) as Htrue.
        { apply Hflags. split; [|lia]. apply list_lookup_insert_eq. lia. }
        congruence.
      * rewrite list_lookup_insert_ne by lia. apply Harmed; [lia|].
        destruct (A_acked s !! Z.to_nat j) as [[]|] eqn:Hj0; [|done|].
        -- exfalso.
           assert (A_acked s' !! Z.to_nat j = Some true) as Htrue.
           { apply Hflags. split; [|lia].
             rewrite list_lookup_insert_ne by lia. done. }
           congruence.
        -- exfalso. apply lookup_ge_None in Hj0. lia.
    + intros j Hj. rewrite Hbase', Hn' in Hj. rewrite Hw'. apply Hwindow. lia.
  - exfalso. apply lookup_ge_None in Hflag. lia.
Qed.

Lemma double_start_starttimer who a i t :
  double_start who a (starttimer who i :: t) = a || double_start who true t.
Proof. cbn. by rewrite decide_True. Qed.

Lemma double_start_stoptimer who a t :
  double_start who a (stoptimer who :: t) = double_start who false t.
Proof. cbn. by rewrite decide_True. Qed.

Lemma A_resend_rearm (l : list Z) (s : sender) :
  sender_sized s →
  Forall (λ i, 0 ≤ Z.rem i SEQSPACE < WINDOWSIZE) l →
  (∀ i, i ∈ l → A_acked s !! Z.to_nat (Z.rem i SEQSPACE) = Some false →
        A_timer_running s !! Z.to_nat (Z.rem i SEQSPACE) = Some true) →
  wp (for_each l A_resend_body) s (λ t r,
    (∀ a, double_start A a t = false) ∧ ∃ s', r = Ok (tt, s')).
Proof.
  revert s. induction l as [|i l IH]; intros s (Hw & Ha & Ht) Hl Harmed.
  { wp_steps. split; [done|by eexists]. }
  apply Forall_cons in Hl as [Hi Hl].
  assert (∀ j, j ∈ l → j ∈ i :: l) as Hin by (intros; by apply elem_of_cons; right).
  cbn [for_each]. apply wp_bind. unfold A_resend_body at 1.
  unfold WINDOWSIZE in *.
  wp_steps; fields; try (exfalso; lia).
  - (* acknowledged: skipped *)
    eapply wp_mono; [apply IH; [done|done|by auto]|]. cbn beta.
    intros t r [Hds Hr]. split; [|done]. intros a. by rewrite ?app_nil_l.
  - (* resent: the flag is set, so [stoptimer] comes before [starttimer] *)
    eapply wp_mono.
    { apply IH; [repeat split; fields; by rewrite ?length_insert|done|].
      fields. intros j Hj Hclear.
      destruct (decide (Z.to_nat (Z.rem j SEQSPACE) = Z.to_nat (Z.rem i SEQSPACE)))
        as [->|Hne].
      - apply list_lookup_insert_eq. lia.
      - rewrite list_lookup_insert_ne by done. auto. }
    cbn beta. intros t r [Hds Hr]. split; [|done]. intros a.
    cbn [app]. change (double_start A a (tolayer3 A x0 :: ?t)) with (double_start A a t).
    by rewrite double_start_stoptimer, double_start_starttimer, Hds.
  - (* an unacknowledged slot without its flag: excluded *)
    exfalso. subst x x1.
    match goal with
    | H1 : A_acked s !! _ = Some false, H2 : A_timer_running s !! _ = Some false |- _ =>
        specialize (Harmed i ltac:(by apply elem_of_cons; left) H1);
        rewrite Harmed in H2; done
    end.
Qed.

Lemma A_timerinterrupt_units s :
  A_inv_units s →
  wp Sr.A_timerinterrupt s (λ t r,
    Forall data_unit_ok (sent A t) ∧
    match r with
    | Ok (_, s') => A_inv_units s'
    | Fault _ => True
    end).
Proof.
  intros [Hinv Harmed Hwindow].
  pose proof (A_timerinterrupt_inv s Hinv) as Hwp1.
  pose proof (A_timerinterrupt_spec s Hinv) as Hwp2.
  revert Hwp1 Hwp2. unfold wp.
  destruct (Sr.A_timerinterrupt s) as [t r]. cbn [fst snd].
  intros Hr1 (s' & -> & Hpost). destruct Hr1 as (Hinv' & _).
  assert (0 ≤ A_base s ∧ A_nextseq s ≤ 6) as [Hb Hn]
    by (destruct Hinv; unfold WINDOWSIZE in *; lia).
  assert (∀ i, i ∈ seqZ (A_base s) (A_nextseq s - A_base s) →
            A_base s ≤ i < A_nextseq s ∧ Z.rem i SEQSPACE = i) as Hrange.
  { intros i Hi%elem_of_seqZ. unfold SEQSPACE. lia. }
  destruct Hpost. split.
  - rewrite resend_sent0. apply Forall_fmap, Forall_forall.
    intros i [_ Hi]%list_elem_of_filter. cbn.
    destruct (Hrange i Hi) as [Hwin Hrem].
    destruct (Hwindow i Hwin) as (p & Hp & _ & Hok).
    unfold A_buffered. rewrite Hrem.
    by rewrite (list_lookup_total_correct _ _ _ Hp).
  - split; [done| |].
    + rewrite resend_base0, resend_nextseq0, resend_acked0.
      intros j Hj Hclear.
      assert (j ∈ seqZ (A_base s) (A_nextseq s - A_base s)) as Hin
        by (apply elem_of_seqZ; lia).
      destruct (Hrange j Hin) as [_ Hrem].
      rewrite <- Hrem at 1. apply resend_timer_set0.
      apply list_elem_of_filter. by rewrite Hrem.
    + rewrite resend_base0, resend_nextseq0, resend_window0. done.
Qed.

Lemma A_step_units c s :
  A_inv_units s →
  wp (Sr.A_step c) s (λ t r,
    Forall data_unit_ok (sent A t) ∧
    match r with
    | Ok (_, s') => A_inv_units s'
    | Fault _ => True
    end).
Proof.
  intros Hu. destruct c; cbn [Sr.A_step].
  - by apply A_output_units.
  - by apply A_input_units.
  - by apply A_timerinterrupt_units.
Qed.

Lemma A_run_units cs s :
  A_inv_units s →
  wp (run Sr.A_step cs) s (λ t r,
    Forall data_unit_ok (sent A t) ∧
    match r with
    | Ok (_, s') => A_inv_units s'
    | Fault _ => True
    end).
Proof.
  revert s. induction cs as [|c cs IH]; intros s Hu; cbn [run].
  { wp_steps. split; [constructor|done]. }
  apply wp_bind. eapply wp_mono; [by apply A_step_units|]. cbn beta.
  intros t [[[] s']|f] [Hsent Hr]; [|done].
  eapply wp_mono; [by apply IH|]. cbn beta.
  intros t' r' [Hsent' Hr']. split; [|done].
  rewrite sent_app. by apply Forall_app.
Qed.

Lemma A_reachable_units s : A_reachable s → A_inv_units s.
Proof.
  intros (cs & t & Hrun).
  destruct A_inv_units_start as (s0 & Hinit & Hu0).
  rewrite (exec_bind_Ok _ _ _ _ _ _ Hinit) in Hrun.
  destruct (exec (run Sr.A_step cs) s0) as [t' r'] eqn:Hcs.
  pose proof (wp_exec_run _ _ _ (A_run_units cs s0 Hu0) _ _ Hcs) as Hpost.
  simpl in Hrun. injection Hrun as _ ->.
  by destruct Hpost as [[] [_ ?]].
Qed.

(** X9. From a state the emulator can bring about, every unit that one
    call of [A_output], [A_input] or [A_timerinterrupt] hands to the
    channel, on first transmission or on timeout, passes the checksum,
    carries [NOTINUSE] as acknowledgment number and a sequence number in
    [[0, SEQSPACE)]: a call never transmits the content of a slot that has
    not been filled. This covers a call that stops at an access outside the
    arrays, for what it has sent before. *)
Theorem A_call_sends_only_data_units (s : sender) (c : A_call) :
  A_reachable s →
  Forall data_unit_ok (sent A (exec (Sr.A_step c) s).1).
Proof.
  intros Hu%A_reachable_units.
  pose proof (A_step_units c s Hu) as Hwp. revert Hwp.
  unfold wp, exec. destruct (Sr.A_step c s) as [t [[[] s']|f]];
    cbn [fst snd]; by intros [? _].
Qed.

Lemma A_call_sends_only_data_units_witness :
  Forall data_unit_ok
    (sent A (exec (Sr.A_step Call_A_timerinterrupt) (A_after calls_abc)).1).
Proof.
  apply A_call_sends_only_data_units.
  exists calls_abc, (A_trace calls_abc). vm_compute. reflexivity.
Defined.

(** X10. From a state the emulator can bring about, [A_timerinterrupt]
    returns normally and, whether the timer is armed or not when it is
    called, never calls [starttimer] on an armed timer: each
    retransmission is followed by [stoptimer] and then [starttimer]. *)
Theorem A_timerinterrupt_stops_before_rearm (s : sender) (armed : bool) :
  A_reachable s →
  double_start A armed (exec Sr.A_timerinterrupt s).1 = false ∧
  ∃ s', (exec Sr.A_timerinterrupt s).2 = Ok s'.
Proof.
  intros Hu%A_reachable_units. destruct Hu as [Hinv Harmed _].
  assert (wp Sr.A_timerinterrupt s (λ t r,
            (∀ a, double_start A a t = false) ∧ ∃ s', r = Ok (tt, s'))) as Hwp.
  { unfold Sr.A_timerinterrupt.
    wp_step; cbn beta iota. wp_step; cbn beta iota.
    change (wp (for_each (seqZ (A_base s) (A_nextseq s - A_base s)) A_resend_body) s
      (λ t r, (∀ a, double_start A a ([] ++ t) = false) ∧ ∃ s', r = Ok (tt, s'))).
    apply A_resend_rearm.
    - by destruct Hinv.
    - by apply A_window_slots.
    - intros i Hi%elem_of_seqZ Hclear.
      assert (Z.rem i SEQSPACE = i) as Hrem
        by (destruct Hinv; unfold SEQSPACE, WINDOWSIZE in *; lia).
      rewrite Hrem in *. apply Harmed; [lia|done]. }
  revert Hwp. unfold wp, exec.
  destruct (Sr.A_timerinterrupt s) as [t [[[] s']|f]]; cbn [fst snd].
  - intros [Hds _]. split; [done|by exists s'].
  - by intros [_ [? [=]]].
Qed.

Lemma A_timerinterrupt_stops_before_rearm_witness :
  double_start A true (exec Sr.A_timerinterrupt (A_after calls_six)).1 = false ∧
  ∃ s', (exec Sr.A_timerinterrupt (A_after calls_six)).2 = Ok s'.
Proof.
  apply A_timerinterrupt_stops_before_rearm.
  exists calls_six, (A_trace calls_six). vm_compute. reflexivity.
Defined.

(** * src/ass2/sr.c *)

(** ** The sender stays inside its arrays *)

Ltac mod6 :=
  unfold in_int in *; unfold WINDOWSIZE, SEQSPACE, INT_MAX, INT_MIN in *;
  change (2 ^ 31) with 2147483648 in *.

Lemma A2_inv_start :
  ∃ s, Ass2.A_init sender_statics = ([], Ok (tt, s)) ∧ A2_inv s ∧ A_nextseq s = 0.
Proof.
  eexists. split; [vm_compute; reflexivity|].
  split; [|done]. split; simpl; try done.
  intros i Hi. exfalso.
  do 6 (destruct i as [|i]; [done|]). done.
Qed.

Lemma A2_output_inv sg m s :
  A2_inv s → A_nextseq s + 7 ≤ INT_MAX →
  wp (Ass2.A_output sg m) s (λ t r,
    ∃ s', r = Ok (tt, s') ∧ A2_inv s' ∧ A_base s' = A_base s ∧
          A_nextseq s ≤ A_nextseq s' ≤ A_nextseq s + 1).
Proof.
  intros Hinv Hmax. unfold Ass2.A_output.
  wp_step; cbn beta iota. wp_step; cbn beta iota.
  assert (int_add (A_base s) WINDOWSIZE = A_base s + WINDOWSIZE) as ->.
  { destruct Hinv. apply int_add_small. mod6. lia. }
  assert (int_add (A_nextseq s) 1 = A_nextseq s + 1) as Hnext.
  { destruct Hinv. apply int_add_small. mod6. lia. }
  case_bool_decide as Hroom.
  - assert (0 ≤ Z.rem (A_nextseq s) WINDOWSIZE < 6) as Hidx.
    { destruct Hinv. mod6. lia. }
    wp_steps; fields; rewrite ?length_insert in *;
      try (exfalso; destruct Hinv; mod6; lia).
    all: rewrite Hnext; eexists; split; [done|]; split; [|fields; lia].
    all: destruct Hinv; split; fields; rewrite ?length_insert; try done;
         try (mod6; lia).
    all: intros i [Hne Hi]%flags_insert_false.
    all: destruct (A2_flags0 _ Hi) as (j & Hj & Hmod); exists j; mod6; lia.
  - wp_steps. eexists. split; [done|]. split; [by destruct Hinv|]. fields. lia.
Qed.

Lemma A2_slide_inv fuel s :
  A2_inv s →
  A_nextseq s - A_base s < Z.of_nat fuel →
  A_nextseq s + 7 ≤ INT_MAX →
  wp (Ass2.A_slide fuel) s (λ t r,
    t = [] ∧
    ∃ s', r = Ok (tt, s') ∧ A2_inv s' ∧ A_base s ≤ A_base s' ∧
          A_same_but_acked_base s s').
Proof.
  revert s. induction fuel as [|fuel IH]; intros s Hinv Hfuel Hmax.
  { destruct Hinv. lia. }
  assert (0 ≤ Z.rem (A_base s) WINDOWSIZE < 6) as Hidx.
  { destruct Hinv. mod6. lia. }
  assert (length (A_acked s) = 6%nat) as Hlen by (by destruct Hinv).
  cbn [Ass2.A_slide]. wp_steps; fields; try (exfalso; lia).
  - subst x.
    match goal with H : _ !! _ = Some true |- _ => rename H into Hset end.
    assert (A_base s < A_nextseq s) as Hlt.
    { destruct (A2_flags _ Hinv _ Hset) as (j & Hj & _). lia. }
    assert (int_add (A_base s) 1 = A_base s + 1) as Hnext.
    { destruct Hinv. apply int_add_small. mod6. lia. }
    rewrite Hnext.
    eapply wp_mono.
    { apply IH; fields; [|lia|done].
      destruct Hinv. split; fields; rewrite ?length_insert; try done;
        try (mod6; lia).
      intros i [Hne Hi]%flags_insert_false.
      destruct (A2_flags0 _ Hi) as (j & Hj & Hmod).
      exists j. split; [|done].
      assert (j ≠ A_base s) by (intros ->; mod6; lia). lia. }
    cbn beta. fields. intros t r (-> & s' & -> & Hinv' & Hb' & Hsame).
    split; [done|]. exists s'. split_and!; try done; lia.
  - subst x. split; [done|]. exists s. split_and!; try done; lia.
Qed.

Lemma A2_input_inv sg p s :
  A2_inv s → A_nextseq s + 7 ≤ INT_MAX →
  wp (Ass2.A_input sg p) s (λ t r,
    ∃ s', r = Ok (tt, s') ∧ A2_inv s' ∧ A_base s ≤ A_base s' ∧
          A_nextseq s' = A_nextseq s).
Proof.
  intros Hinv Hmax. unfold Ass2.A_input.
  wp_step; cbn beta iota. wp_step; cbn beta iota.
  destruct (negb _ && _ && _) eqn:Hcond.
  2:{ wp_steps. exists s. split_and!; try done; lia. }
  apply andb_true_iff in Hcond as [[_ Hlo%bool_decide_eq_true]%andb_true_iff
                                   Hhi%bool_decide_eq_true].
  assert (0 ≤ Z.rem (acknum p) WINDOWSIZE < 6) as Hidx.
  { destruct Hinv. mod6. lia. }
  assert (length (A_acked s) = 6%nat ∧ length (A_timer_running s) = 6%nat)
    as [Hla Hlt] by (by destruct Hinv).
  wp_step; cbn beta iota. wp_step; cbn beta iota; [|exfalso; lia].
  wp_step; [wp_steps; exists s; split_and!; try done; lia|].
  destruct s as [w a tm b n wf ta pr]; fields.
  assert (∀ tm', length tm' = Z.to_nat WINDOWSIZE →
            A2_inv (Sender w (<[Z.to_nat (Z.rem (acknum p) WINDOWSIZE) := true]> a)
                           tm' b n wf (ta + 1) pr)) as Hmark.
  { intros tm' Htm'. destruct Hinv; fields.
    split; fields; rewrite ?length_insert; try done.
    intros k [->|Hk]%flags_insert_true.
    - exists (acknum p). mod6. lia.
    - by apply A2_flags0. }
  assert (n - b ≤ 6) as Hwidth by (destruct Hinv; fields; mod6; lia).
  wp_steps; fields; rewrite ?length_insert in *; try (exfalso; lia).
  - eapply wp_mono.
    { apply A2_slide_inv; [apply Hmark; by rewrite length_insert|fields; lia|done]. }
    cbn beta. fields. intros t r (-> & s' & -> & Hinv' & Hb' & Hsame).
    exists s'. split_and!; try done. by destruct Hsame as (_ & _ & ? & _).
  - eapply wp_mono.
    { apply A2_slide_inv; [by apply Hmark|fields; lia|done]. }
    cbn beta. fields. intros t r (-> & s' & -> & Hinv' & Hb' & Hsame).
    exists s'. split_and!; try done. by destruct Hsame as (_ & _ & ? & _).
Qed.

Lemma A2_timerinterrupt_inv s :
  A2_inv s →
  wp (Ass2.A_timerinterrupt) s (λ t r,
    ∃ s', r = Ok (tt, s') ∧ A2_inv s' ∧ A_base s' = A_base s ∧
          A_nextseq s' = A_nextseq s).
Proof.
  intros Hinv. unfold Ass2.A_timerinterrupt.
  wp_step; cbn beta iota. wp_step; cbn beta iota.
  assert (Forall (λ i, 0 ≤ i) (seqZ (A_base s) (A_nextseq s - A_base s))) as Hl.
  { apply Forall_seqZ. intros i Hi. destruct Hinv. lia. }
  revert Hl. generalize (seqZ (A_base s) (A_nextseq s - A_base s)) as l.
  intros l. revert s Hinv.
  induction l as [|i l IH]; intros s Hinv Hl; cbn [for_each].
  { wp_steps. by exists s. }
  apply Forall_cons in Hl as [Hi Hl].
  assert (0 ≤ Z.rem i WINDOWSIZE < 6) as Hidx by (mod6; lia).
  assert (length (A_acked s) = 6%nat ∧ length (A_timer_running s) = 6%nat
          ∧ length (A_window s) = 6%nat)
    as (Hla & Hlt & Hlw) by (by destruct Hinv).
  apply wp_bind.
  match goal with
  | |- wp ?m s _ =>
      assert (wp m s (λ t r, ∃ s1, r = Ok (tt, s1) ∧ A2_inv s1 ∧
                A_base s1 = A_base s ∧ A_nextseq s1 = A_nextseq s)) as Hbody
  end.
  { wp_steps; fields; try (exfalso; lia).
    - by exists s.
    - eexists. split; [done|]. destruct Hinv.
      split_and!; [|done..]. split; fields; rewrite ?length_insert; done.
    - eexists. split; [done|]. destruct Hinv.
      split_and!; [|done..]. split; fields; rewrite ?length_insert; done. }
  eapply wp_mono; [exact Hbody|]. cbn beta.
  intros t1 r1 (s1 & -> & Hinv1 & Hb1 & Hn1).
  eapply wp_mono; [by apply IH|]. cbn beta.
  intros t r (s' & -> & ? & ? & ?). exists s'. split_and!; try done; congruence.
Qed.

Lemma A2_step_inv sg c s :
  A2_inv s → A_nextseq s + 7 ≤ INT_MAX →
  wp (Ass2.A_step sg c) s (λ t r,
    ∃ s', r = Ok (tt, s') ∧ A2_inv s' ∧ A_base s ≤ A_base s' ∧
          A_nextseq s ≤ A_nextseq s' ≤ A_nextseq s + 1).
Proof.
  intros Hinv Hmax. destruct c as [m|p|]; cbn [Ass2.A_step].
  - eapply wp_mono; [by apply A2_output_inv|]. cbn beta.
    intros t r (s' & -> & ? & ? & ?). exists s'. split_and!; try done; lia.
  - eapply wp_mono; [by apply A2_input_inv|]. cbn beta.
    intros t r (s' & -> & ? & ? & ?). exists s'. split_and!; try done; lia.
  - eapply wp_mono; [by apply A2_timerinterrupt_inv|]. cbn beta.
    intros t r (s' & -> & ? & ? & ?). exists s'. split_and!; try done; lia.
Qed.

Lemma A2_run_inv sg cs s :
  A2_inv s → A_nextseq s + Z.of_nat (length cs) + 7 ≤ INT_MAX →
  wp (run (Ass2.A_step sg) cs) s (λ t r,
    ∃ s', r = Ok (tt, s') ∧ A2_inv s' ∧ A_base s ≤ A_base s' ∧
          A_nextseq s ≤ A_nextseq s' ≤ A_nextseq s + Z.of_nat (length cs)).
Proof.
  revert s. induction cs as [|c cs IH]; intros s Hinv Hmax; cbn [run].
  { wp_steps. exists s. split_and!; try done; simpl; lia. }
  cbn [length] in Hmax.
  apply wp_bind. eapply wp_mono; [apply A2_step_inv; [done|lia]|]. cbn beta.
  intros t r (s1 & -> & Hinv1 & Hb1 & Hn1).
  eapply wp_mono; [apply IH; [done|lia]|]. cbn beta.
  intros t' r' (s2 & -> & Hinv2 & Hb2 & Hn2).
  exists s2. split_and!; try done; cbn [length]; lia.
Qed.

(** X11. src/ass2/sr.c, sender: whatever calls the emulator makes after
    [A_init] (fewer than [INT_MAX - 7] of them, so that the counters stay
    [int]s), no call reads or writes outside the [WINDOWSIZE]-slot arrays
    and every loop ends; the window satisfies
    [0 <= A_nextseq - A_base <= WINDOWSIZE] after each of them, and
    [A_nextseq] is at most the number of calls. *)
Theorem Ass2_sender_stays_in_bounds (sg : bool) (cs : list A_call) :
  Z.of_nat (length cs) + 7 ≤ INT_MAX →
  ∃ s, A2_outcome sg cs = Ok s ∧
       0 ≤ A_nextseq s - A_base s ≤ WINDOWSIZE ∧
       0 ≤ A_base s ∧ A_nextseq s ≤ Z.of_nat (length cs).
Proof.
  intros Hmax.
  destruct A2_inv_start as (s0 & Hinit & Hinv0 & Hn0).
  unfold A2_outcome. rewrite (exec_bind_Ok _ _ _ _ _ _ Hinit).
  cbn [snd].
  pose proof (A2_run_inv sg cs s0 Hinv0 ltac:(lia)) as Hwp. revert Hwp.
  unfold wp, exec. destruct (run (Ass2.A_step sg) cs s0) as [t r].
  cbn [fst snd]. intros (s & -> & Hinv & Hb & Hn).
  exists s. split; [done|]. destruct Hinv. lia.
Qed.

Lemma Ass2_sender_stays_in_bounds_witness :
  ∃ s, A2_outcome true (calls_six_ack0 ++ [Call_A_output (msg_of "g")]) = Ok s ∧
       A_nextseq s - A_base s = WINDOWSIZE.
Proof.
  destruct (Ass2_sender_stays_in_bounds true
              (calls_six_ack0 ++ [Call_A_output (msg_of "g")]))
    as (s & Hs & _).
  - by_compute.
  - exists s. split; [exact Hs|].
    assert (Ok s = A2_outcome true (calls_six_ack0 ++ [Call_A_output (msg_of "g")]))
      as Heq by (symmetry; exact Hs).
    vm_compute in Heq. injection Heq as ->. reflexivity.
Defined.

(** ** The receiver of src/ass2/sr.c *)

Lemma in_seq_from_nil sg arrived b : in_seq_from sg arrived b [].
Proof. split; [done|constructor]. Qed.

Lemma in_seq_from_app sg arrived b qs1 qs2 :
  in_seq_from sg arrived b qs1 →
  in_seq_from sg arrived (b + Z.of_nat (length qs1)) qs2 →
  in_seq_from sg arrived b (qs1 ++ qs2).
Proof.
  intros [Hs1 Hf1] [Hs2 Hf2]. split; [|by apply Forall_app].
  rewrite fmap_app, length_app, Nat2Z.inj_add, seqZ_app by lia.
  by rewrite Hs1, Hs2.
Qed.

Lemma in_seq_from_mono sg arrived arrived' b qs :
  arrived ⊆ arrived' → in_seq_from sg arrived b qs →
  in_seq_from sg arrived' b qs.
Proof.
  intros Hsub [Hs Hf]. split; [done|].
  eapply Forall_impl; [done|]. intros q [? ?]. split; [|done]. by apply Hsub.
Qed.

Lemma B2_slots_mono sg arrived arrived' lo hi lo' hi' s :
  arrived ⊆ arrived' → lo' ≤ lo → hi ≤ hi' →
  B2_slots sg arrived lo hi s → B2_slots sg arrived' lo' hi' s.
Proof.
  intros Hsub Hlo Hhi Hs i Hi.
  destruct (Hs i Hi) as (p & ? & ? & ? & ? & ?).
  exists p. split_and!; try done; try lia. by apply Hsub.
Qed.

Lemma B2_deliver_spec sg arrived hi fuel s :
  length (B_buffer s) = Z.to_nat WINDOWSIZE →
  length (B_received s) = Z.to_nat WINDOWSIZE →
  0 ≤ B_base s ≤ hi → hi ≤ B_base s + WINDOWSIZE →
  B_base s + WINDOWSIZE ≤ INT_MAX →
  Forall (λ p, seqnum p + 7 ≤ INT_MAX) arrived →
  B2_slots sg arrived (B_base s) hi s →
  hi - B_base s < Z.of_nat fuel →
  wp (Ass2.B_deliver fuel) s (λ t r,
    ∃ qs s', t = tolayer5 B <$> (payload <$> qs) ∧
          in_seq_from sg arrived (B_base s) qs ∧
          r = Ok (tt, s') ∧
          length (B_buffer s') = Z.to_nat WINDOWSIZE ∧
          length (B_received s') = Z.to_nat WINDOWSIZE ∧
          B_base s' = B_base s + Z.of_nat (length qs) ∧
          B_base s' ≤ hi ∧
          B_base s' + WINDOWSIZE ≤ INT_MAX ∧
          B2_slots sg arrived (B_base s') hi s').
Proof.
  revert s. induction fuel as [|fuel IH];
    intros s Hlb Hlr Hb Hhi Hroom Hsmall Hslots Hfuel; [lia|].
  assert (0 ≤ Z.rem (B_base s) WINDOWSIZE < 6) as Hidx by (mod6; lia).
  assert (length (B_buffer s) = 6%nat ∧ length (B_received s) = 6%nat)
    as [Hlb6 Hlr6] by done.
  cbn [Ass2.B_deliver]. wp_steps; fields; try (exfalso; lia).
  - (* the slot of [B_base] is marked received: deliver it *)
    subst x.
    match goal with H : _ !! _ = Some true |- _ => rename H into Hset end.
    match goal with H : _ !! _ = Some x0 |- _ => rename H into Hbuf end.
    destruct (Hslots _ Hset) as (p & Hp & Hin & Hok & Hrange & Hmod).
    assert (seqnum p = B_base s) as Hseq by (mod6; lia).
    assert (seqnum p + 7 ≤ INT_MAX) as Hp7.
    { rewrite Forall_forall in Hsmall. by apply Hsmall. }
    assert (int_add (B_base s) 1 = B_base s + 1) as Hnext.
    { apply int_add_small. mod6. lia. }
    assert (x0 = p) as -> by congruence.
    rewrite Hnext.
    eapply wp_mono.
    { apply (IH _); fields; rewrite ?length_insert; try done.
      - mod6; lia.
      - mod6; lia.
      - mod6; lia.
      - intros i [Hne Hi]%flags_insert_false.
        destruct (Hslots i Hi) as (q & Hq & ? & ? & ? & Hqm).
        exists q. split_and!; try done; [|lia].
        assert (seqnum q ≠ B_base s); [|lia].
        intros Heq. apply Hne. rewrite Heq in Hqm. mod6. lia.
      - lia. }
    cbn beta. fields.
    intros t r (qs & s' & -> & Hord & -> & Hlb' & Hlr' & Hb' & Hhi' & Hroom' & Hs').
    exists (p :: qs), s'. split_and!; try done.
    + change (p :: qs) with ([p] ++ qs). apply in_seq_from_app; [|done].
      split; [|by repeat constructor].
      cbn. rewrite seqZ_cons, seqZ_nil by lia. cbn. by f_equal.
    + rewrite Hb'. cbn [length]. lia.
  - exists [], s.
    split_and!; try done; first [apply in_seq_from_nil | simpl; lia].
Qed.

Lemma B2_input_spec sg arrived packet s :
  B2_inv sg arrived s →
  Forall (λ p, seqnum p + 7 ≤ INT_MAX) (packet :: arrived) →
  wp (Ass2.B_input sg packet) s (λ t r,
    ∃ qs s', delivered t = payload <$> qs ∧
          in_seq_from sg (packet :: arrived) (B_base s) qs ∧
          r = Ok (tt, s') ∧
          B2_inv sg (packet :: arrived) s' ∧
          B_base s' = B_base s + Z.of_nat (length qs)).
Proof.
  intros Hinv Hsmall. unfold Ass2.B_input.
  assert (arrived ⊆ packet :: arrived) as Hsub by list_sub.
  assert (length (B_buffer s) = 6%nat ∧ length (B_received s) = 6%nat)
    as [Hlb Hlr] by (by destruct Hinv).
  (* the drain, from any state that the first half can leave behind *)
  assert (∀ fuel t1 s1, delivered t1 = [] →
            length (B_buffer s1) = Z.to_nat WINDOWSIZE →
            length (B_received s1) = Z.to_nat WINDOWSIZE →
            B2_slots sg (packet :: arrived) (B_base s) (B_base s + WINDOWSIZE) s1 →
            B_base s1 = B_base s → (6 < fuel)%nat →
            wp (Ass2.B_deliver fuel) s1 (λ t' r',
              ∃ qs s', delivered (t1 ++ t') = payload <$> qs ∧
                in_seq_from sg (packet :: arrived) (B_base s) qs ∧
                r' = Ok (tt, s') ∧
                B2_inv sg (packet :: arrived) s' ∧
                B_base s' = B_base s + Z.of_nat (length qs))) as Hdrain.
  { intros fuel t1 s1 Ht1 Hlb1 Hlr1 Hs1 Hb1 Hfuel.
    eapply wp_mono.
    { apply (B2_deliver_spec sg (packet :: arrived) (B_base s + WINDOWSIZE));
        rewrite ?Hb1; try done; destruct Hinv; mod6; lia. }
    cbn beta.
    intros t' r' (qs & s' & -> & Hord & -> & Hlb' & Hlr' & Hb' & Hhi' & Hroom' & Hs').
    exists qs, s'. rewrite delivered_app, Ht1, delivered_tolayer5.
    rewrite Hb1 in *. split_and!; try done.
    split; [done|done|destruct Hinv; lia|done|].
    eapply B2_slots_mono; [| | |exact Hs']; [done|lia|lia]. }
  assert (B2_slots sg (packet :: arrived) (B_base s) (B_base s + WINDOWSIZE) s)
    as Hslots.
  { destruct Hinv. eapply B2_slots_mono; [| | |exact B2_window0]; [exact Hsub|lia|lia]. }
  wp_step; cbn beta iota. wp_step; cbn beta iota. apply wp_bind.
  destruct (negb (Ass2.IsCorrupted sg packet) && _ && _) eqn:Hcond.
  - apply andb_true_iff in Hcond as [[Hok%negb_true_iff Hlo%bool_decide_eq_true]%andb_true_iff
                                     Hhi%bool_decide_eq_true].
    assert (int_add (B_base s) WINDOWSIZE = B_base s + WINDOWSIZE) as Hw.
    { apply int_add_small. destruct Hinv. mod6. lia. }
    rewrite Hw in Hhi.
    assert (0 ≤ Z.rem (seqnum packet) WINDOWSIZE < 6) as Hidx.
    { destruct Hinv. mod6. lia. }
    wp_steps; fields; rewrite ?length_insert; try (exfalso; lia).
    + (* duplicate of a buffered unit *)
      apply Hdrain; try done; lia.
    + (* newly buffered *)
      apply Hdrain; fields; rewrite ?length_insert; try done; [|lia].
      unfold B2_slots; fields.
      intros i [->|Hi]%flags_insert_true.
      * exists packet.
        split_and!; try done;
          first [ apply list_lookup_insert_eq; lia
                | by apply elem_of_cons; left
                | destruct Hinv; mod6; lia ].
      * destruct (Hslots i Hi) as (p & Hp & ? & ? & ? & Hseq).
        exists p. split_and!; try done; try lia.
        rewrite list_lookup_insert_ne; [done|]. intros Heq.
        rewrite <- Heq in Hi. congruence.
  - wp_steps. apply Hdrain; try done; lia.
Qed.

Lemma B2_run_spec sg ps arrived s :
  B2_inv sg arrived s →
  Forall (λ p, seqnum p + 7 ≤ INT_MAX) (ps ++ arrived) →
  wp (run (Ass2.B_input sg) ps) s (λ t r,
    ∃ qs s', delivered t = payload <$> qs ∧
          in_seq_from sg (ps ++ arrived) (B_base s) qs ∧
          r = Ok (tt, s') ∧
          B2_inv sg (ps ++ arrived) s' ∧
          B_base s' = B_base s + Z.of_nat (length qs)).
Proof.
  revert arrived s. induction ps as [|p ps IH]; intros arrived s Hinv Hsmall;
    cbn [run].
  { wp_steps. exists [], s. split_and!; try done;
      first [apply in_seq_from_nil | simpl; lia]. }
  assert (p :: arrived ⊆ (p :: ps) ++ arrived) as Hsub1 by list_sub.
  assert (ps ++ p :: arrived ⊆ (p :: ps) ++ arrived) as Hsub2 by list_sub.
  assert (Forall (λ p, seqnum p + 7 ≤ INT_MAX) (ps ++ p :: arrived)) as Hsmall2.
  { rewrite Forall_forall in *. intros q Hq. apply Hsmall.
    revert Hq. cbn [app]. rewrite ?elem_of_cons, ?elem_of_app, ?elem_of_cons. tauto. }
  assert (Forall (λ p, seqnum p + 7 ≤ INT_MAX) (p :: arrived)) as Hsmall1.
  { rewrite Forall_forall in *. intros q Hq. apply Hsmall. by apply Hsub1. }
  apply wp_bind. eapply wp_mono; [by apply B2_input_spec|]. cbn beta.
  intros t1 r1 (qs1 & s1 & Hd1 & Hord1 & -> & Hinv1 & Hb1).
  eapply wp_mono; [by apply IH|]. cbn beta.
  intros t2 r2 (qs2 & s2 & Hd2 & Hord2 & -> & Hinv2 & Hb2).
  exists (qs1 ++ qs2), s2. rewrite delivered_app, Hd1, Hd2, fmap_app.
  split_and!; try done.
  - apply in_seq_from_app.
    + eapply in_seq_from_mono; [exact Hsub1|done].
    + rewrite <- Hb1. eapply in_seq_from_mono; [exact Hsub2|done].
  - destruct Hinv2. split; [done|done|done|done|].
    eapply B2_slots_mono; [| | |exact B2_window0]; [exact Hsub2|lia|lia].
  - rewrite Hb2, Hb1, length_app. lia.
Qed.

Lemma B2_inv_start sg :
  ∃ s, Ass2.B_init receiver_statics = ([], Ok (tt, s)) ∧ B2_inv sg [] s
       ∧ B_base s = 0.
Proof.
  eexists. split; [vm_compute; reflexivity|].
  split; [|done]. split; simpl; try done.
  intros i Hi. exfalso.
  do 6 (destruct i as [|i]; [done|]). done.
Qed.

(** X12. src/ass2/sr.c, receiver: whatever units arrive at [B_input] after
    [B_init], in whatever order, duplicated or corrupted, as long as their
    sequence numbers stay seven below [INT_MAX], no call leaves the
    [WINDOWSIZE]-slot arrays, every delivery loop ends, and the payloads
    handed to [tolayer5] are, in this order, those of uncorrupted arrived
    units with the sequence numbers 0, 1, 2, ...: one delivery per number,
    without gap or repetition; [B_base] is the number of deliveries made. *)
Theorem Ass2_receiver_delivers_in_order (sg : bool) (ps : list pkt) :
  Forall (λ p, seqnum p + 7 ≤ INT_MAX) ps →
  ∃ (qs : list pkt) (s : receiver),
    B2_outcome sg ps = Ok s ∧
    delivered (B2_trace sg ps) = payload <$> qs ∧
    seqnum <$> qs = seqZ 0 (Z.of_nat (length qs)) ∧
    Forall (λ q, q ∈ ps ∧ Ass2.IsCorrupted sg q = false) qs ∧
    B_base s = Z.of_nat (length qs).
Proof.
  intros Hsmall.
  destruct (B2_inv_start sg) as (s0 & Hinit & Hinv0 & Hb0).
  unfold B2_trace, B2_outcome. rewrite (exec_bind_Ok _ _ _ _ _ _ Hinit).
  assert (Forall (λ p, seqnum p + 7 ≤ INT_MAX) (ps ++ [])) as Hsmall'
    by (by rewrite app_nil_r).
  pose proof (B2_run_spec sg ps [] s0 Hinv0 Hsmall') as Hwp. revert Hwp.
  unfold wp, exec. destruct (run (Ass2.B_input sg) ps s0) as [t r].
  cbn [fst snd app]. rewrite app_nil_r, Hb0.
  intros (qs & s & Hd & [Hs Hf] & -> & Hinv & Hb).
  exists qs, s. split_and!; try done; lia.
Qed.

Lemma Ass2_receiver_delivers_in_order_witness :
  delivered (B2_trace false
    [data_pkt2 false 1 (mk_payload "b"); data_pkt2 false 7 (mk_payload "x");
     data_pkt2 false 0 (mk_payload "a"); data_pkt2 false 1 (mk_payload "c")])
  = [mk_payload "a"; mk_payload "b"].
Proof.
  destruct (Ass2_receiver_delivers_in_order false
    [data_pkt2 false 1 (mk_payload "b"); data_pkt2 false 7 (mk_payload "x");
     data_pkt2 false 0 (mk_payload "a"); data_pkt2 false 1 (mk_payload "c")])
    as (qs & s & _ & Hd & _).
  - repeat constructor; by_compute.
  - vm_compute. reflexivity.
Defined.
